(** * A todo list kept in localStorage: model of [src/index.js]

    The script keeps an array [todos] of [{ id, title, completed }] objects,
    writes it to [localStorage] as JSON after every change and reads it back
    when the page starts.  A form adds or edits an entry, a checkbox toggles
    it, a filter and a search box select what is rendered, and dragging the
    rendered rows rebuilds the array from the row order.

    Conventions of the model.
    - A JavaScript string is a [string]: a sequence of code units in the range
      0..255 (the Latin-1 part of UTF-16).  [toLowerCase] and [trim] are the
      ECMAScript ones restricted to that range.
    - The text held by [localStorage] is read by [JSON_parse], a parser for
      the JSON grammar.  A parsed string is a list of code units, since an
      escape can name any unit up to 65535, and [loadTodos] yields a JSON
      value, which need not be an array of entries.
    - The handlers are modelled on a [todos] that is an array of entries,
      each an object with the members id, title and completed in this order
      ([todos_json]); an entry is a value of type [Item].  The script holds
      references to objects: the two views agree as long as no object is
      twice in [todos], which is so whenever the ids are distinct.
    - [uid()], the answers to [confirm] and what the user types, checks and
      drags are inputs of the handlers. *)

From Stdlib Require Import Ascii NArith ZArith.
From stdpp Require Import gmap strings list.

Local Set Warnings "-register-all".
Local Open Scope stdpp_scope.

(** ** Strings *)

Module Str.

Definition code (c : ascii) : N := N_of_ascii c.

Definition between (lo hi n : N) : bool := ((lo <=? n) && (n <=? hi))%N.

(** [String.prototype.toLowerCase] on one code unit below 256: A-Z, and the
    Latin-1 capitals U+00C0-U+00DE without the multiplication sign. *)
Definition lower_unit (c : ascii) : ascii :=
  let n := code c in
  if between 65 90 n || between 192 214 n || between 216 222 n
  then ascii_of_N (n + 32) else c.

Fixpoint toLowerCase (s : string) : string :=
  match s with
  | EmptyString => EmptyString
  | String c r => String (lower_unit c) (toLowerCase r)
  end.

(** WhiteSpace and LineTerminator below 256: TAB, LF, VT, FF, CR, SP, NBSP. *)
Definition is_space (c : ascii) : bool :=
  let n := code c in between 9 13 n || (n =? 32)%N || (n =? 160)%N.

Fixpoint trimStart (s : string) : string :=
  match s with
  | EmptyString => EmptyString
  | String c r => if is_space c then trimStart r else s
  end.

Definition is_empty (s : string) : bool :=
  match s with EmptyString => true | _ => false end.

Fixpoint trimEnd (s : string) : string :=
  match s with
  | EmptyString => EmptyString
  | String c r =>
      let r' := trimEnd r in
      if is_space c && is_empty r' then EmptyString else String c r'
  end.

Definition trim (s : string) : string := trimEnd (trimStart s).

Fixpoint startsWith (q s : string) : bool :=
  match q, s with
  | EmptyString, _ => true
  | String a q', String b s' => bool_decide (a = b) && startsWith q' s'
  | String _ _, EmptyString => false
  end.

(** [s.includes(q)]: [q] occurs in [s] as a run of consecutive units. *)
Fixpoint includes (s q : string) : bool :=
  startsWith q s ||
  match s with
  | EmptyString => false
  | String _ r => includes r q
  end.

(** Only for writing examples: the text with every apostrophe replaced by a
    double quote. *)
Fixpoint text (s : string) : string :=
  match s with
  | EmptyString => EmptyString
  | String c r => String (if bool_decide (c = "'"%char) then "034"%char else c) (text r)
  end.

Fixpoint units (s : string) : list N :=
  match s with
  | EmptyString => []
  | String c r => code c :: units r
  end.

End Str.

(** ** JSON *)

Module JSON.

(** A number keeps the decimal it was written as: (-1)^neg * mant * 10^exp10.
    An object keeps its members in the order of the text. *)
Inductive JSValue : Type :=
| JNull
| JBool (b : bool)
| JNum (neg : bool) (mant : N) (exp10 : Z)
| JStr (us : list N)
| JArr (elems : list JSValue)
| JObj (members : list (list N * JSValue)).

(** The decimal rounds to (plus or minus) zero as an IEEE double: it is zero,
    or at most 2^-1075, half of the least subnormal. *)
Definition rounds_to_zero (mant : N) (exp10 : Z) : bool :=
  (mant =? 0)%N ||
  ((exp10 <? 0)%Z && (Z.of_N mant * 2 ^ 1075 <=? 10 ^ (- exp10))%Z).

(** ToBoolean. *)
Definition truthy (v : JSValue) : bool :=
  match v with
  | JNull => false
  | JBool b => b
  | JNum _ m e => negb (rounds_to_zero m e)
  | JStr us => match us with [] => false | _ => true end
  | JArr _ | JObj _ => true
  end.

(** *** Reading *)

Inductive outcome (A : Type) : Type :=
| Done (a : A) (rest : string)
| Reject
| Starved.
Arguments Done {A} a rest.
Arguments Reject {A}.
Arguments Starved {A}.

Definition and_then {A B} (o : outcome A) (k : A → string → outcome B) : outcome B :=
  match o with
  | Done a r => k a r
  | Reject => Reject
  | Starved => Starved
  end.

Definition is_ws (c : ascii) : bool :=
  let n := Str.code c in (n =? 32)%N || (n =? 9)%N || (n =? 10)%N || (n =? 13)%N.

Fixpoint skip_ws (s : string) : string :=
  match s with
  | EmptyString => EmptyString
  | String c r => if is_ws c then skip_ws r else s
  end.

Definition digit (c : ascii) : option N :=
  let n := Str.code c in
  if Str.between 48 57 n then Some (n - 48)%N else None.

Definition hex (c : ascii) : option N :=
  let n := Str.code c in
  if Str.between 48 57 n then Some (n - 48)%N
  else if Str.between 97 102 n then Some (n - 87)%N
  else if Str.between 65 70 n then Some (n - 55)%N
  else None.

Definition hex4 (a b c d : ascii) : option N :=
  match hex a, hex b, hex c, hex d with
  | Some x, Some y, Some z, Some w => Some (((x * 16 + y) * 16 + z) * 16 + w)%N
  | _, _, _, _ => None
  end.

(** The unit named by a one-letter escape. *)
Definition escaped (e : ascii) : option N :=
  match e with
  | "034"%char => Some 34%N
  | "\"%char => Some 92%N
  | "/"%char => Some 47%N
  | "b"%char => Some 8%N
  | "f"%char => Some 12%N
  | "n"%char => Some 10%N
  | "r"%char => Some 13%N
  | "t"%char => Some 9%N
  | _ => None
  end.

Definition push (u : N) (o : option (list N * string)) : option (list N * string) :=
  match o with
  | Some (us, r) => Some (u :: us, r)
  | None => None
  end.

(** The units of a string literal, read from just after its opening quote
    up to and including the closing one. *)
Fixpoint chars (s : string) : option (list N * string) :=
  match s with
  | EmptyString => None
  | String c r =>
      if bool_decide (c = "034"%char) then Some ([], r)
      else if bool_decide (c = "\"%char) then
        match r with
        | String e r1 =>
            if bool_decide (e = "u"%char) then
              match r1 with
              | String h1 (String h2 (String h3 (String h4 r2))) =>
                  match hex4 h1 h2 h3 h4 with
                  | Some u => push u (chars r2)
                  | None => None
                  end
              | _ => None
              end
            else
              match escaped e with
              | Some u => push u (chars r1)
              | None => None
              end
        | EmptyString => None
        end
      else if (Str.code c <? 32)%N then None
      else push (Str.code c) (chars r)
  end.

(** A run of decimal digits: its value after [acc], how many, what follows. *)
Fixpoint digits (s : string) (acc : N) (cnt : nat) : N * nat * string :=
  match s with
  | EmptyString => (acc, cnt, s)
  | String c r =>
      match digit c with
      | Some d => digits r (acc * 10 + d)%N (S cnt)
      | None => (acc, cnt, s)
      end
  end.

Definition strip (c : ascii) (s : string) : option string :=
  match s with
  | String c' r => if bool_decide (c' = c) then Some r else None
  | EmptyString => None
  end.

(** int: a single 0, or a nonzero digit followed by digits. *)
Definition int_part (s : string) : option (N * string) :=
  match s with
  | String c r =>
      match digit c with
      | Some 0%N => Some (0%N, r)
      | Some d => let '(m, _, r') := digits r d 0 in Some (m, r')
      | None => None
      end
  | EmptyString => None
  end.

(** frac: nothing, or a point followed by at least one digit. *)
Definition frac_part (m : N) (s : string) : option (N * Z * string) :=
  match strip "."%char s with
  | Some r =>
      let '(m', k, r') := digits r m 0 in
      match k with
      | O => None
      | S _ => Some (m', (- Z.of_nat k)%Z, r')
      end
  | None => Some (m, 0%Z, s)
  end.

(** exp: nothing, or e/E, an optional sign and at least one digit. *)
Definition exp_part (s : string) : option (Z * string) :=
  match s with
  | String c r =>
      if bool_decide (c = "e"%char) || bool_decide (c = "E"%char) then
        let '(sg, r1) :=
          match strip "-"%char r, strip "+"%char r with
          | Some r1, _ => (true, r1)
          | None, Some r1 => (false, r1)
          | None, None => (false, r)
          end in
        let '(e, k, r2) := digits r1 0 0 in
        match k with
        | O => None
        | S _ => Some (if sg then (- Z.of_N e)%Z else Z.of_N e, r2)
        end
      else Some (0%Z, s)
  | EmptyString => Some (0%Z, s)
  end.

Definition number (s : string) : outcome JSValue :=
  let '(neg, s1) := match strip "-"%char s with Some r => (true, r) | None => (false, s) end in
  match int_part s1 with
  | Some (m, s2) =>
      match frac_part m s2 with
      | Some (m', e1, s3) =>
          match exp_part s3 with
          | Some (e2, s4) => Done (JNum neg m' (e1 + e2)) s4
          | None => Reject
          end
      | None => Reject
      end
  | None => Reject
  end.

(** What follows the word [w] at the head of [s]. *)
Fixpoint after (w s : string) : option string :=
  match w with
  | EmptyString => Some s
  | String a w' =>
      match s with
      | String b s' => if bool_decide (a = b) then after w' s' else None
      | EmptyString => None
      end
  end.

Definition literal (w : string) (v : JSValue) (s : string) : outcome JSValue :=
  match after w s with
  | Some r => Done v r
  | None => Reject
  end.

(** value, elements and members of the grammar; [n] bounds the nesting of
    calls and [JSON_parse] below gives enough of it. *)
Fixpoint value (n : nat) (s : string) : outcome JSValue :=
  match n with
  | O => Starved
  | S n =>
      match skip_ws s with
      | EmptyString => Reject
      | String c r =>
          if bool_decide (c = "["%char) then
            match strip "]"%char (skip_ws r) with
            | Some r' => Done (JArr []) r'
            | None => and_then (elements n r) (λ es r', Done (JArr es) r')
            end
          else if bool_decide (c = "{"%char) then
            match strip "}"%char (skip_ws r) with
            | Some r' => Done (JObj []) r'
            | None => and_then (members n r) (λ ms r', Done (JObj ms) r')
            end
          else if bool_decide (c = "034"%char) then
            match chars r with
            | Some (us, r') => Done (JStr us) r'
            | None => Reject
            end
          else if bool_decide (c = "t"%char) then literal "true" (JBool true) (String c r)
          else if bool_decide (c = "f"%char) then literal "false" (JBool false) (String c r)
          else if bool_decide (c = "n"%char) then literal "null" JNull (String c r)
          else number (String c r)
      end
  end
with elements (n : nat) (s : string) : outcome (list JSValue) :=
  match n with
  | O => Starved
  | S n =>
      and_then (value n s) (λ v r,
        match skip_ws r with
        | String c r' =>
            if bool_decide (c = ","%char) then
              and_then (elements n r') (λ vs r'', Done (v :: vs) r'')
            else if bool_decide (c = "]"%char) then Done [v] r'
            else Reject
        | EmptyString => Reject
        end)
  end
with members (n : nat) (s : string) : outcome (list (list N * JSValue)) :=
  match n with
  | O => Starved
  | S n =>
      match strip "034"%char (skip_ws s) with
      | Some r =>
          match chars r with
          | Some (k, r1) =>
              match strip ":"%char (skip_ws r1) with
              | Some r2 =>
                  and_then (value n r2) (λ v r3,
                    match skip_ws r3 with
                    | String c r4 =>
                        if bool_decide (c = ","%char) then
                          and_then (members n r4) (λ ms r5, Done ((k, v) :: ms) r5)
                        else if bool_decide (c = "}"%char) then Done [(k, v)] r4
                        else Reject
                    | EmptyString => Reject
                    end)
              | None => Reject
              end
          | None => Reject
          end
      | None => Reject
      end
  end.

(** [JSON.parse]: [None] stands for the SyntaxError it throws. *)
Definition JSON_parse (s : string) : option JSValue :=
  match value (2 * String.length s + 1) s with
  | Done v r => if Str.is_empty (skip_ws r) then Some v else None
  | Reject | Starved => None
  end.

End JSON.

(** ** The application *)

Module App.
Import JSON.

(** One entry of [todos]. *)
Record Item : Type := { id : string; title : string; completed : bool }.

Definition with_title (v : string) (t : Item) : Item :=
  {| id := id t; title := v; completed := completed t |}.

Definition with_completed (b : bool) (t : Item) : Item :=
  {| id := id t; title := title t; completed := b |}.

(** *** What [JSON.stringify(todos)] writes *)

Definition hex_char (n : N) : ascii :=
  ascii_of_N (if (n <? 10)%N then n + 48 else n + 87).

(** QuoteJSONString, one unit: the short escapes, \u00xx for the other
    control characters, the unit itself otherwise. *)
Definition quote_unit (c : ascii) : string :=
  let n := Str.code c in
  if (n =? 8)%N then "\b"
  else if (n =? 9)%N then "\t"
  else if (n =? 10)%N then "\n"
  else if (n =? 12)%N then "\f"
  else if (n =? 13)%N then "\r"
  else if (n =? 34)%N then String "\"%char (String "034"%char EmptyString)
  else if (n =? 92)%N then "\\"
  else if (n <? 32)%N then
    "\u00" +:+ String (hex_char (n / 16)) (String (hex_char (n mod 16)) EmptyString)
  else String c EmptyString.

Fixpoint quote_body (s : string) : string :=
  match s with
  | EmptyString => EmptyString
  | String c r => quote_unit c +:+ quote_body r
  end.

Definition quote (s : string) : string :=
  String "034"%char (quote_body s +:+ String "034"%char EmptyString).

Definition stringify_bool (b : bool) : string := if b then "true" else "false".

Definition stringify_item (t : Item) : string :=
  "{" +:+ quote "id" +:+ ":" +:+ quote (id t) +:+
  "," +:+ quote "title" +:+ ":" +:+ quote (title t) +:+
  "," +:+ quote "completed" +:+ ":" +:+ stringify_bool (completed t) +:+ "}".

Fixpoint join_items (c : list Item) : string :=
  match c with
  | [] => EmptyString
  | [t] => stringify_item t
  | t :: c' => stringify_item t +:+ "," +:+ join_items c'
  end.

(** [JSON.stringify] on an array of entries. *)
Definition JSON_stringify (c : list Item) : string := "[" +:+ join_items c +:+ "]".

(** The value [JSON.parse] builds for such an array. *)
Definition item_json (t : Item) : JSValue :=
  JObj [ (Str.units "id", JStr (Str.units (id t)));
         (Str.units "title", JStr (Str.units (title t)));
         (Str.units "completed", JBool (completed t)) ].

Definition todos_json (c : list Item) : JSValue := JArr (item_json <$> c).

(** *** State *)

(** The script's variables, the value under [LS_KEY] in localStorage, and
    the parts of the page that [renderTodos] writes: the rows of
    [todoListEl], whether [emptyNote] is displayed, and the two numbers of
    [countBadge]. *)
Record State : Type := {
  todos : list Item;
  filter : string;
  searchQuery : string;
  editingId : option string;
  localStorage : option string;
  todoListEl : list Item;
  emptyNote : bool;
  countBadge : nat * nat
}.

Definition set_todos (c : list Item) (s : State) : State :=
  {| todos := c; filter := filter s; searchQuery := searchQuery s;
     editingId := editingId s; localStorage := localStorage s;
     todoListEl := todoListEl s; emptyNote := emptyNote s;
     countBadge := countBadge s |}.

Definition set_filter (f : string) (s : State) : State :=
  {| todos := todos s; filter := f; searchQuery := searchQuery s;
     editingId := editingId s; localStorage := localStorage s;
     todoListEl := todoListEl s; emptyNote := emptyNote s;
     countBadge := countBadge s |}.

Definition set_searchQuery (q : string) (s : State) : State :=
  {| todos := todos s; filter := filter s; searchQuery := q;
     editingId := editingId s; localStorage := localStorage s;
     todoListEl := todoListEl s; emptyNote := emptyNote s;
     countBadge := countBadge s |}.

Definition set_editingId (e : option string) (s : State) : State :=
  {| todos := todos s; filter := filter s; searchQuery := searchQuery s;
     editingId := e; localStorage := localStorage s;
     todoListEl := todoListEl s; emptyNote := emptyNote s;
     countBadge := countBadge s |}.

Definition set_localStorage (v : option string) (s : State) : State :=
  {| todos := todos s; filter := filter s; searchQuery := searchQuery s;
     editingId := editingId s; localStorage := v;
     todoListEl := todoListEl s; emptyNote := emptyNote s;
     countBadge := countBadge s |}.

Definition set_page (rows : list Item) (note : bool) (badge : nat * nat) (s : State) : State :=
  {| todos := todos s; filter := filter s; searchQuery := searchQuery s;
     editingId := editingId s; localStorage := localStorage s;
     todoListEl := rows; emptyNote := note; countBadge := badge |}.

(** *** Array methods *)

Definition find {A} (P : A → Prop) `{∀ x, Decision (P x)} (l : list A) : option A :=
  snd <$> list_find P l.

Definition findIndex {A} (P : A → Prop) `{∀ x, Decision (P x)} (l : list A) : option nat :=
  fst <$> list_find P l.

Definition some {A} (P : A → Prop) `{∀ x, Decision (P x)} (l : list A) : bool :=
  bool_decide (Exists P l).

(** *** loadTodos, saveTodos *)

(** What [loadTodos] leaves in [todos], from the value under [LS_KEY]:
    [JSON.parse(raw) || []] when [raw] is a non-empty string and parses, and
    [[]] otherwise. *)
Definition loadTodos (stored : option string) : JSValue :=
  match stored with
  | Some raw =>
      if Str.is_empty raw then JArr []
      else match JSON_parse raw with
           | Some v => if truthy v then v else JArr []
           | None => JArr []
           end
  | None => JArr []
  end.

Definition saveTodos (s : State) : State :=
  set_localStorage (Some (JSON_stringify (todos s))) s.

(** *** renderTodos *)

(** The rows [renderTodos] builds: filter first, then search. *)
Definition shown (c : list Item) (f q : string) : list Item :=
  let l := c in
  let l := if bool_decide (f = "active") then base.filter (λ t, negb (completed t)) l else l in
  let l := if bool_decide (f = "completed") then base.filter (λ t, completed t) l else l in
  if negb (Str.is_empty (Str.trim q)) then
    let q := Str.toLowerCase (Str.trim q) in
    base.filter (λ t, Str.includes (Str.toLowerCase (title t)) q) l
  else l.

Definition renderTodos (s : State) : State :=
  let rows := shown (todos s) (filter s) (searchQuery s) in
  set_page rows (bool_decide (length rows = 0))
    (length (base.filter (λ t, completed t) (todos s)), length (todos s)) s.

(** *** Handlers *)

(** The two messages the submit handler can [alert]. *)
Inductive Alert : Type :=
| EmptyTitle      (* Judul todo tidak boleh kosong. *)
| DuplicateTitle. (* Sudah ada todo dengan judul yang sama. *)

(** [if (editingId)]: neither [null] nor the empty string. *)
Definition editing (e : option string) : bool :=
  match e with
  | Some i => negb (Str.is_empty i)
  | None => false
  end.

(** The form's submit handler; [input] is [todoInput.value] and [uid] what
    [uid()] returns if it is called. *)
Definition onSubmit (input uid : string) (s : State) : State * option Alert :=
  let value := Str.trim input in
  if Str.is_empty value then (s, Some EmptyTitle)
  else
    let duplicate :=
      some (λ t, Str.toLowerCase (title t) = Str.toLowerCase value
                 ∧ Some (id t) ≠ editingId s) (todos s) in
    if duplicate then (s, Some DuplicateTitle)
    else
      let s' :=
        if editing (editingId s) then
          match findIndex (λ t, Some (id t) = editingId s) (todos s) with
          | Some idx =>
              set_editingId None (set_todos (alter (with_title value) idx (todos s)) s)
          | None => s
          end
        else
          set_todos ({| id := uid; title := value; completed := false |} :: todos s) s in
      (renderTodos (saveTodos s'), None).

(** The change handler of the checkbox of the row of item [i]; [checked] is
    [chk.checked]. *)
Definition onChange (i : string) (checked : bool) (s : State) : State :=
  match findIndex (λ t, id t = i) (todos s) with
  | Some idx =>
      renderTodos (saveTodos (set_todos (alter (with_completed checked) idx (todos s)) s))
  | None => s
  end.

(** The click handler of the delete button of the row of item [i];
    [confirmed] is the answer to [confirm]. *)
Definition onDelete (i : string) (confirmed : bool) (s : State) : State :=
  if confirmed then
    renderTodos (saveTodos (set_todos (base.filter (λ t, id t ≠ i) (todos s)) s))
  else s.

Definition startEdit (i : string) (s : State) : State :=
  match find (λ x, id x = i) (todos s) with
  | Some _ => set_editingId (Some i) s
  | None => s
  end.

Definition onFilter (f : string) (s : State) : State :=
  renderTodos (set_filter f s).

Definition onSearch (q : string) (s : State) : State :=
  renderTodos (set_searchQuery q s).

Definition onClear (confirmed : bool) (s : State) : State :=
  if confirmed then renderTodos (saveTodos (set_todos [] s)) else s.

(** The merge of the Sortable [onEnd] handler: the entries named by the
    row order, each looked up in [todos], then the entries whose id is on no
    row. *)
Definition reconcile (c : list Item) (orderedIds : list string) : list Item :=
  let newTodos := omap (λ i, find (λ x, id x = i) c) orderedIds in
  let shownSet : gset string := list_to_set orderedIds in
  let rest := base.filter (λ t, id t ∉ shownSet) c in
  newTodos ++ rest.

(** [orderedIds] is the [data-id] of the rows of [todoListEl] as the drag
    left them. *)
Definition onEnd (orderedIds : list string) (s : State) : State :=
  renderTodos (saveTodos (set_todos (reconcile (todos s) orderedIds) s)).

(** *** Events *)

Inductive Event : Type :=
| Submit (input uid : string)
| Change (i : string) (checked : bool)
| Delete (i : string) (confirmed : bool)
| EditClick (i : string)
| FilterClick (f : string)
| SearchInput (q : string)
| ClearClick (confirmed : bool)
| DragEnd (orderedIds : list string)
| BeforeUnload.

Definition handle (e : Event) (s : State) : State :=
  match e with
  | Submit input uid => fst (onSubmit input uid s)
  | Change i checked => onChange i checked s
  | Delete i confirmed => onDelete i confirmed s
  | EditClick i => startEdit i s
  | FilterClick f => onFilter f s
  | SearchInput q => onSearch q s
  | ClearClick confirmed => onClear confirmed s
  | DragEnd orderedIds => onEnd orderedIds s
  | BeforeUnload => saveTodos s
  end.

(** What the page can send: [uid()] returns a non-empty token that no entry
    carries, and a drag permutes the rows that are rendered. *)
Definition possible (e : Event) (s : State) : Prop :=
  match e with
  | Submit _ uid => uid ≠ EmptyString ∧ uid ∉ id <$> todos s
  | DragEnd orderedIds => orderedIds ≡ₚ id <$> todoListEl s
  | _ => True
  end.

(** The state after the script has run to its end, when what [loadTodos]
    left in [todos] is the array of the entries [c]. *)
Definition start (stored : option string) (c : list Item) : State :=
  renderTodos
    {| todos := c; filter := "all"; searchQuery := EmptyString; editingId := None;
       localStorage := stored; todoListEl := []; emptyNote := false;
       countBadge := (0, 0) |}.

Inductive reachable (stored : option string) : State → Prop :=
| reach_start c :
    loadTodos stored = todos_json c → reachable stored (start stored c)
| reach_step s e :
    reachable stored s → possible e s → reachable stored (handle e s).

(** *** Invariants of the data model *)

(** The title as compared: trimmed and lower-cased. *)
Definition normalized (s : string) : string := Str.toLowerCase (Str.trim s).

(** I1: no two entries share a normalized title. *)
Definition I1 (c : list Item) : Prop := NoDup (normalized ∘ title <$> c).

(** I2: every entry has a non-empty trimmed title. *)
Definition I2 (c : list Item) : Prop :=
  Forall (λ t, Str.trim (title t) ≠ EmptyString) c.

(** What the handlers keep: distinct non-empty ids, titles stored trimmed,
    I1 and I2. *)
Record well_formed (c : list Item) : Prop := {
  wf_ids : NoDup (id <$> c);
  wf_ids_nonempty : Forall (λ t, id t ≠ EmptyString) c;
  wf_trimmed : Forall (λ t, Str.trim (title t) = title t) c;
  wf_I1 : I1 c;
  wf_I2 : I2 c
}.

(** What every handler keeps of the state: the list is well formed and the
    rows on the page are those of the current list, filter and query. *)
Definition consistent (s : State) : Prop :=
  well_formed (todos s)
  ∧ todoListEl s = shown (todos s) (filter s) (searchQuery s).

(** The first part of the merge, [newTodos]. *)
Definition lookups (c : list Item) (order : list string) : list Item :=
  omap (λ i, find (λ x, id x = i) c) order.

(** The string does not begin with white space. *)
Definition no_lead (v : string) : Prop :=
  match v with
  | EmptyString => True
  | String a _ => Str.is_space a = false
  end.

(** Every unit of the string is white space. *)
Fixpoint blank (v : string) : Prop :=
  match v with
  | EmptyString => True
  | String a r => Str.is_space a = true ∧ blank r
  end.

(** The string does not end with white space. *)
Fixpoint no_trail (v : string) : Prop :=
  match v with
  | EmptyString => True
  | String a EmptyString => Str.is_space a = false
  | String _ r => no_trail r
  end.

(** *** uid *)

(** The digit of value [d] in radix 36: 0-9, then a-z. *)
Definition digit36 (d : N) : ascii :=
  ascii_of_N (if (d <? 10)%N then d + 48 else d + 87).

(** The digits of [n] in radix 36 in front of [acc], most significant first;
    [fuel] bounds the number of digits. *)
Fixpoint to36 (fuel : nat) (n : N) (acc : string) : string :=
  match fuel with
  | O => acc
  | S fuel =>
      let acc' := String (digit36 (n mod 36)) acc in
      if (n / 36 =? 0)%N then acc' else to36 fuel (n / 36) acc'
  end.

(** [Number.prototype.toString(36)] on an integer. *)
Definition toString36 (z : Z) : string :=
  let n := Z.abs_N z in
  let body := to36 (S (N.to_nat (N.log2 n))) n EmptyString in
  if (z <? 0)%Z then String "-"%char body else body.

(** [s.slice(a, b)] for [0 <= a <= b]. *)
Definition slice (a b : nat) (s : string) : string := String.substring a (b - a) s.

(** [uid()], from what [Date.now()] returns and the text that
    [Math.random().toString(36)] returns. *)
Definition uid (now : Z) (random36 : string) : string :=
  toString36 now +:+ slice 2 8 random36.

(** The value of a radix-36 digit, and of a run of digits after [acc]. *)
Definition val36 (c : ascii) : N :=
  let n := Str.code c in
  if Str.between 48 57 n then (n - 48)%N else (n - 87)%N.

Fixpoint of36 (s : string) (acc : N) : N :=
  match s with
  | EmptyString => acc
  | String c r => of36 r (acc * 36 + val36 c)%N
  end.

(** *** Runs of events *)

(** The state after the events [es], first to last. *)
Definition run (es : list Event) (s : State) : State :=
  foldl (λ s e, handle e s) s es.

(** The events that only look at the list: choosing a filter, typing in the
    search box, clicking an edit button, and a delete or a clear that is not
    confirmed. *)
Definition looks_only (e : Event) : bool :=
  match e with
  | FilterClick _ | SearchInput _ | EditClick _ => true
  | Delete _ confirmed | ClearClick confirmed => negb confirmed
  | Submit _ _ | Change _ _ | DragEnd _ | BeforeUnload => false
  end.

(** The value under [LS_KEY] would be read back as the current [todos]. *)
Definition in_sync (s : State) : Prop :=
  loadTodos (localStorage s) = todos_json (todos s).

(** The page is what [renderTodos] writes for the current variables. *)
Definition rendered (s : State) : Prop :=
  todoListEl s = shown (todos s) (filter s) (searchQuery s)
  ∧ emptyNote s = bool_decide (length (todoListEl s) = 0)
  ∧ countBadge s
    = (length (base.filter (λ t, completed t) (todos s)), length (todos s)).

End App.

(** ** Lookups by id *)
Section Lookup.
Import App.
Implicit Types (c : list Item) (i : string) (t : Item).

Lemma find_Some c i t :
  find (λ x, id x = i) c = Some t → t ∈ c ∧ id t = i.
Proof.
  unfold find. intros H. apply fmap_Some in H as [[k x] [H ->]].
  apply list_find_Some in H as (Hk & Hi & _). simpl.
  split; [by eapply list_elem_of_lookup_2 | done].
Qed.

Lemma find_is_Some c i : i ∈ id <$> c → is_Some (find (λ x, id x = i) c).
Proof.
  intros (t & -> & Ht)%list_elem_of_fmap. unfold find.
  destruct (list_find_elem_of (λ x, id x = id t) c t Ht eq_refl) as [[k x] ->].
  by eexists.
Qed.

Lemma find_None c i : find (λ x, id x = i) c = None → i ∉ id <$> c.
Proof.
  intros H Hi. apply find_is_Some in Hi as [t Ht]. congruence.
Qed.

Lemma find_unique c t :
  NoDup (id <$> c) → t ∈ c → find (λ x, id x = id t) c = Some t.
Proof.
  intros Hnd Ht.
  destruct (find_is_Some c (id t)) as [u Hu]; [by apply list_elem_of_fmap_2|].
  rewrite Hu. f_equal. apply find_Some in Hu as [Hu Hid].
  apply list_elem_of_lookup in Hu as [j Hj]. apply list_elem_of_lookup in Ht as [k Hk].
  assert (j = k) as ->; [|congruence].
  eapply NoDup_lookup; [exact Hnd| |]; rewrite list_lookup_fmap.
  - by rewrite Hj.
  - rewrite Hk. simpl. by rewrite Hid.
Qed.

Lemma findIndex_Some (P : Item → Prop) `{∀ x, Decision (P x)} c k :
  findIndex P c = Some k → ∃ t, c !! k = Some t ∧ P t.
Proof.
  unfold findIndex. intros Hf. apply fmap_Some in Hf as [[j x] [Hf ->]].
  apply list_find_Some in Hf as (? & ? & _). eauto.
Qed.

Lemma findIndex_None (P : Item → Prop) `{∀ x, Decision (P x)} c :
  findIndex P c = None ↔ Forall (λ x, ¬ P x) c.
Proof.
  unfold findIndex. rewrite fmap_None. apply list_find_None.
Qed.

Lemma findIndex_is_Some (P : Item → Prop) `{∀ x, Decision (P x)} c t :
  t ∈ c → P t → is_Some (findIndex P c).
Proof.
  intros Ht HP. unfold findIndex.
  destruct (list_find_elem_of P c t Ht HP) as [[k x] ->]. by eexists.
Qed.
End Lookup.

(** ** The projection *)
Section Projection.
Import App.
Implicit Types (c : list Item) (f q : string) (s : State).

Lemma shown_sublist c f q : shown c f q `sublist_of` c.
Proof.
  unfold shown.
  repeat case_bool_decide; destruct (negb _);
    repeat (etrans; [apply sublist_filter; apply _|]); done.
Qed.

(** C7: the rows are the entries that pass the status filter and then, when
    the trimmed query is not empty, those whose lower-cased title includes
    the lower-cased trimmed query; they are a subsequence of [todos], in its
    order, and rendering leaves [todos] as it was. *)
Theorem projection_filters_then_searches c f q s :
  let search (l : list Item) :=
    if Str.is_empty (Str.trim q) then l
    else base.filter
           (λ t, Str.includes (Str.toLowerCase (title t))
                              (Str.toLowerCase (Str.trim q)) = true) l in
  shown c "all" q = search c
  ∧ shown c "active" q = search (base.filter (λ t, completed t = false) c)
  ∧ shown c "completed" q = search (base.filter (λ t, completed t = true) c)
  ∧ shown c f q `sublist_of` c
  ∧ todos (renderTodos s) = todos s
  ∧ todoListEl (renderTodos s) = shown (todos s) (filter s) (searchQuery s).
Proof.
  assert (∀ l : list Item, base.filter (λ t : Item, negb (completed t)) l
               = base.filter (λ t, completed t = false) l) as Hact.
  { intros l. apply list_filter_iff. intros t. by destruct (completed t). }
  assert (∀ l : list Item, base.filter (λ t : Item, completed t) l
               = base.filter (λ t, completed t = true) l) as Hcom.
  { intros l. apply list_filter_iff. intros t. by destruct (completed t). }
  assert (∀ q' (l : list Item), base.filter (λ t : Item, Str.includes (Str.toLowerCase (title t)) q') l
               = base.filter (λ t, Str.includes (Str.toLowerCase (title t)) q' = true) l)
    as Hinc.
  { intros q' l. apply list_filter_iff. intros t. by destruct (Str.includes _ _). }
  cbv zeta. split_and!; [| | |apply shown_sublist|done..];
    unfold shown; simpl; rewrite ?Hact, ?Hcom;
    destruct (Str.is_empty (Str.trim q)); simpl; by rewrite ?Hinc.
Qed.
End Projection.

(** ** Toggling *)
Section Toggle.
Import App.
Implicit Types (c : list Item) (s : State).

Lemma alter_keeps_ids (g : Item → Item) c k :
  (∀ t, id (g t) = id t) → id <$> alter g k c = id <$> c.
Proof.
  intros Hg. rewrite (list_fmap_alter id g Datatypes.id); [|by apply Forall_forall].
  by apply list_alter_id.
Qed.

Lemma alter_keeps_titles (g : Item → Item) c k :
  (∀ t, title (g t) = title t) → title <$> alter g k c = title <$> c.
Proof.
  intros Hg. rewrite (list_fmap_alter title g Datatypes.id); [|by apply Forall_forall].
  by apply list_alter_id.
Qed.

(** C10: with distinct ids, the change handler for an id that an entry
    carries rewrites the [completed] field of that entry and nothing else:
    the entry keeps its id and title, every other position holds what it
    held, and the sequence of ids and of titles is the same. *)
Theorem toggle_changes_only_completed s i checked :
  NoDup (id <$> todos s) → i ∈ id <$> todos s →
  ∃ idx t,
    todos s !! idx = Some t ∧ id t = i
    ∧ (∀ j u, todos s !! j = Some u → id u = i → j = idx)
    ∧ todos (onChange i checked s) !! idx
      = Some {| id := id t; title := title t; completed := checked |}
    ∧ (∀ j, j ≠ idx → todos (onChange i checked s) !! j = todos s !! j)
    ∧ length (todos (onChange i checked s)) = length (todos s)
    ∧ id <$> todos (onChange i checked s) = id <$> todos s
    ∧ title <$> todos (onChange i checked s) = title <$> todos s.
Proof.
  intros Hnd (u & -> & Hu)%list_elem_of_fmap.
  destruct (findIndex_is_Some (λ t, id t = id u) (todos s) u Hu eq_refl) as [idx Hidx].
  destruct (findIndex_Some _ _ _ Hidx) as (t & Ht & Hid).
  exists idx, t. unfold onChange. rewrite Hidx. simpl.
  split_and!; [done..| | | | | |].
  - intros j w Hj Hw. eapply NoDup_lookup; [exact Hnd| |]; rewrite list_lookup_fmap.
    + by rewrite Hj.
    + rewrite Ht. simpl. congruence.
  - by rewrite list_lookup_alter_eq, Ht.
  - intros j Hj. by rewrite list_lookup_alter_ne.
  - apply length_alter.
  - by apply alter_keeps_ids.
  - by apply alter_keeps_titles.
Qed.

Lemma toggle_changes_only_completed_witness :
  let A := {| id := "a"; title := "x"; completed := false |} in
  let B := {| id := "b"; title := "y"; completed := false |} in
  NoDup (id <$> todos (start None [A; B])) ∧ "b" ∈ id <$> todos (start None [A; B])
  ∧ todos (onChange "b" true (start None [A; B])) !! 1
    = Some {| id := "b"; title := "y"; completed := true |}.
Proof.
  intros A B. set (s := start None [A; B]).
  assert (NoDup (id <$> todos s)) as Hnd by (by apply (bool_decide_unpack _)).
  assert ("b" ∈ id <$> todos s) as Hin by (by apply (bool_decide_unpack _)).
  split_and!; [exact Hnd|exact Hin|].
  destruct (toggle_changes_only_completed s "b" true Hnd Hin)
    as (idx & t & H1 & H2 & H3 & H4 & _).
  assert (idx = 1) as -> by (symmetry; by apply (H3 1 B)).
  rewrite H4. by simplify_eq/=.
Defined.
End Toggle.

(** ** The merge after a drag *)
Section Reconcile.
Import App.
Implicit Types (c : list Item) (s : State) (order : list string).

Lemma reconcile_eq c order :
  reconcile c order = lookups c order ++ base.filter (λ t, id t ∉ order) c.
Proof.
  unfold reconcile, lookups. f_equal.
  apply list_filter_iff. intros t. by rewrite elem_of_list_to_set.
Qed.

Lemma lookups_found c order :
  (∀ i, i ∈ order → i ∈ id <$> c) →
  id <$> lookups c order = order ∧ Forall (λ t, t ∈ c) (lookups c order).
Proof.
  unfold lookups. induction order as [|i order IH]; intros Hin; [done|].
  destruct IH as [IH1 IH2]; [intros j Hj; apply Hin; by right|].
  destruct (find_is_Some c i) as [t Ht]; [apply Hin; by left|].
  csimpl. rewrite Ht. csimpl. apply find_Some in Ht as [Htc Hid].
  split; [by rewrite IH1, Hid | by constructor].
Qed.

Lemma lookups_elem_of c order t :
  NoDup (id <$> c) → t ∈ lookups c order ↔ t ∈ c ∧ id t ∈ order.
Proof.
  intros Hnd. unfold lookups. rewrite list_elem_of_omap. split.
  - intros (i & Hi & Hf). apply find_Some in Hf as [? <-]. done.
  - intros [Ht Hi]. exists (id t). split; [done|]. by apply find_unique.
Qed.

Lemma NoDup_of_ids c : NoDup (id <$> c) → NoDup c.
Proof. apply NoDup_fmap_1. Qed.

Lemma reconcile_Permutation c order :
  NoDup (id <$> c) → NoDup order → (∀ i, i ∈ order → i ∈ id <$> c) →
  reconcile c order ≡ₚ c.
Proof.
  intros Hc Ho Hin. rewrite reconcile_eq.
  rewrite <- (filter_app_complement (λ t, id t ∈ order) c) at 3.
  apply Permutation_app; [|done].
  destruct (lookups_found c order Hin) as [Hids _].
  apply NoDup_Permutation.
  - apply NoDup_of_ids. by rewrite Hids.
  - apply NoDup_filter. by apply NoDup_of_ids.
  - intros t. rewrite lookups_elem_of, list_elem_of_filter by done. tauto.
Qed.

Lemma same_id_same_entry c t u :
  NoDup (id <$> c) → t ∈ c → u ∈ c → id t = id u → t = u.
Proof.
  intros Hnd Ht Hu Hid.
  pose proof (find_unique c t Hnd Ht) as H1.
  pose proof (find_unique c u Hnd Hu) as H2.
  rewrite Hid in H1. congruence.
Qed.

Lemma ids_of_rows c f q order :
  order ≡ₚ id <$> shown c f q → ∀ i, i ∈ order → i ∈ id <$> c.
Proof.
  intros Hp i Hi. rewrite Hp in Hi.
  apply list_elem_of_fmap in Hi as (t & -> & Ht). apply list_elem_of_fmap_2.
  eapply elem_of_sublist; [done|apply shown_sublist].
Qed.

(** C1: after a drag whose row order [orderedIds] permutes the ids of the
    rendered rows, [todos] is [reorderedVisible ++ hidden]: the entries
    named by [orderedIds], in that order, then the entries whose id is not
    in [orderedIds], in the order they had.  When ids are distinct the
    first part is made of the rendered rows themselves. *)
Theorem reorder_puts_visible_first s orderedIds :
  orderedIds ≡ₚ id <$> shown (todos s) (filter s) (searchQuery s) →
  ∃ reorderedVisible hidden,
    todos (onEnd orderedIds s) = reorderedVisible ++ hidden
    ∧ id <$> reorderedVisible = orderedIds
    ∧ Forall (λ t, t ∈ todos s) reorderedVisible
    ∧ hidden = base.filter (λ t, id t ∉ orderedIds) (todos s)
    ∧ hidden `sublist_of` todos s
    ∧ (NoDup (id <$> todos s) →
       reorderedVisible ≡ₚ shown (todos s) (filter s) (searchQuery s)).
Proof.
  intros Hp.
  exists (lookups (todos s) orderedIds),
         (base.filter (λ t, id t ∉ orderedIds) (todos s)).
  pose proof (ids_of_rows _ _ _ _ Hp) as Hin.
  destruct (lookups_found _ _ Hin) as [Hids Hall].
  split_and!; [apply reconcile_eq|done..|apply sublist_filter; apply _|].
  intros Hnd.
  pose proof (shown_sublist (todos s) (filter s) (searchQuery s)) as Hsub.
  assert (NoDup (id <$> shown (todos s) (filter s) (searchQuery s))) as Hnds.
  { eapply sublist_NoDup; [exact Hnd|]. by apply fmap_sublist. }
  apply NoDup_Permutation.
  - apply NoDup_of_ids. rewrite Hids, Hp. done.
  - by apply NoDup_of_ids.
  - intros t. rewrite lookups_elem_of by done. rewrite Hp. split.
    + intros [Ht (u & Hid & Hu)%list_elem_of_fmap].
      assert (t = u) as ->; [|done].
      eapply same_id_same_entry; [exact Hnd|done| |done].
      by eapply elem_of_sublist.
    + intros Ht. split; [by eapply elem_of_sublist|by apply list_elem_of_fmap_2].
Qed.

Lemma reorder_puts_visible_first_witness :
  let A := {| id := "a"; title := "A"; completed := false |} in
  let B := {| id := "b"; title := "B"; completed := true |} in
  let C := {| id := "c"; title := "C"; completed := false |} in
  let D := {| id := "d"; title := "D"; completed := true |} in
  let s := onFilter "active" (start None [A; B; C; D]) in
  ["c"; "a"] ≡ₚ id <$> shown (todos s) (filter s) (searchQuery s)
  ∧ ∃ reorderedVisible hidden,
      todos (onEnd ["c"; "a"] s) = reorderedVisible ++ hidden
      ∧ id <$> reorderedVisible = ["c"; "a"].
Proof.
  intros A B C D s.
  assert (["c"; "a"] ≡ₚ id <$> shown (todos s) (filter s) (searchQuery s)) as H.
  { apply (Permutation_swap "a" "c" []). }
  split; [exact H|].
  destruct (reorder_puts_visible_first s ["c"; "a"] H) as (rv & hid & H1 & H2 & _).
  by exists rv, hid.
Defined.

(** Scenario C: with A and C active and B and D completed, the rows under
    the filter active are A, C; dragging C above A leaves C, A, B, D. *)
Example scenario_C :
  let A := {| id := "a"; title := "A"; completed := false |} in
  let B := {| id := "b"; title := "B"; completed := true |} in
  let C := {| id := "c"; title := "C"; completed := false |} in
  let D := {| id := "d"; title := "D"; completed := true |} in
  let s := onFilter "active" (start None [A; B; C; D]) in
  todoListEl s = [A; C] ∧ todos (onEnd ["c"; "a"] s) = [C; A; B; D].
Proof. vm_compute. done. Qed.

(** C2: when the ids of [c] are distinct and [orderedIds] lists some of them
    without repetition, the merge is a rearrangement of [c]: the same
    entries, as many of them, and the same ids. *)
Theorem reorder_conserves_items c orderedIds :
  NoDup (id <$> c) → NoDup orderedIds → orderedIds ⊆ id <$> c →
  reconcile c orderedIds ≡ₚ c
  ∧ id <$> reconcile c orderedIds ≡ₚ id <$> c
  ∧ length (reconcile c orderedIds) = length c
  ∧ (∀ i, i ∈ id <$> reconcile c orderedIds ↔ i ∈ id <$> c)
  ∧ NoDup (id <$> reconcile c orderedIds).
Proof.
  intros Hc Ho Hin.
  pose proof (reconcile_Permutation c orderedIds Hc Ho Hin) as Hp.
  split_and!.
  - done.
  - by rewrite Hp.
  - by rewrite Hp.
  - intros i. by rewrite Hp.
  - by rewrite Hp.
Qed.

Lemma reorder_conserves_items_witness :
  let A := {| id := "a"; title := "A"; completed := false |} in
  let B := {| id := "b"; title := "B"; completed := true |} in
  let C := {| id := "c"; title := "C"; completed := false |} in
  NoDup (id <$> [A; B; C]) ∧ NoDup ["c"; "a"] ∧ ["c"; "a"] ⊆ id <$> [A; B; C]
  ∧ reconcile [A; B; C] ["c"; "a"] ≡ₚ [A; B; C].
Proof.
  intros A B C.
  assert (NoDup (id <$> [A; B; C])) as H1 by (by apply (bool_decide_unpack _)).
  assert (NoDup ["c"; "a"]) as H2 by (by apply (bool_decide_unpack _)).
  assert (["c"; "a"] ⊆ id <$> [A; B; C]) as H3 by (by apply (bool_decide_unpack _)).
  split_and!; [done..|].
  apply (reorder_conserves_items [A; B; C] ["c"; "a"] H1 H2 H3).
Defined.
End Reconcile.

(** ** The form *)
Section Submit.
Import App.
Implicit Types (c : list Item) (s : State) (input uid : string).

Lemma is_empty_true (v : string) : Str.is_empty v = true ↔ v = EmptyString.
Proof. by destruct v. Qed.

Lemma is_empty_false (v : string) : Str.is_empty v = false ↔ v ≠ EmptyString.
Proof. by destruct v. Qed.

Lemma some_true {A} (P : A → Prop) `{∀ x, Decision (P x)} (l : list A) :
  some P l = true ↔ ∃ x, x ∈ l ∧ P x.
Proof. unfold some. by rewrite bool_decide_eq_true, Exists_exists. Qed.

Lemma some_false {A} (P : A → Prop) `{∀ x, Decision (P x)} (l : list A) :
  some P l = false ↔ ∀ x, x ∈ l → ¬ P x.
Proof. unfold some. by rewrite bool_decide_eq_false, <- Forall_Exists_neg, Forall_forall. Qed.

Lemma fmap_inj_on {B} (g : Item → B) c t u :
  NoDup (g <$> c) → t ∈ c → u ∈ c → g t = g u → t = u.
Proof.
  intros Hnd [j Hj]%list_elem_of_lookup [k Hk]%list_elem_of_lookup Hg.
  assert (j = k) as ->; [|congruence].
  eapply NoDup_lookup; [exact Hnd| |]; rewrite list_lookup_fmap.
  - by rewrite Hj.
  - rewrite Hk. simpl. by rewrite Hg.
Qed.

Lemma alter_same (g : Item → Item) c k t :
  c !! k = Some t → g t = t → alter g k c = c.
Proof.
  intros Hk Hg. apply list_eq. intros j. destruct (decide (k = j)) as [<-|Hne].
  - by rewrite list_lookup_alter_eq, Hk; simpl; rewrite Hg.
  - by rewrite list_lookup_alter_ne.
Qed.

Lemma normalized_trimmed (v : string) :
  Str.trim v = v → normalized v = Str.toLowerCase v.
Proof. unfold normalized. by intros ->. Qed.

(** The three ways out of the handler. *)
Lemma onSubmit_empty s input uid :
  Str.trim input = EmptyString → onSubmit input uid s = (s, Some EmptyTitle).
Proof. unfold onSubmit. by intros ->. Qed.

Lemma onSubmit_duplicate s input uid :
  Str.trim input ≠ EmptyString →
  (∃ t, t ∈ todos s
        ∧ Str.toLowerCase (title t) = Str.toLowerCase (Str.trim input)
        ∧ Some (id t) ≠ editingId s) →
  onSubmit input uid s = (s, Some DuplicateTitle).
Proof.
  intros Hv%is_empty_false Hd. unfold onSubmit. rewrite Hv.
  by apply (some_true (λ t, Str.toLowerCase (title t) = Str.toLowerCase (Str.trim input)
                            ∧ Some (id t) ≠ editingId s)) in Hd as ->.
Qed.

Lemma onSubmit_accepted s input uid :
  Str.trim input ≠ EmptyString →
  (∀ t, t ∈ todos s →
        ¬ (Str.toLowerCase (title t) = Str.toLowerCase (Str.trim input)
           ∧ Some (id t) ≠ editingId s)) →
  onSubmit input uid s =
    (renderTodos (saveTodos
       (if editing (editingId s) then
          match findIndex (λ t, Some (id t) = editingId s) (todos s) with
          | Some idx =>
              set_editingId None
                (set_todos (alter (with_title (Str.trim input)) idx (todos s)) s)
          | None => s
          end
        else set_todos ({| id := uid; title := Str.trim input; completed := false |}
                          :: todos s) s)), None).
Proof.
  intros Hv%is_empty_false Hd. unfold onSubmit. rewrite Hv.
  by apply (some_false (λ t, Str.toLowerCase (title t) = Str.toLowerCase (Str.trim input)
                             ∧ Some (id t) ≠ editingId s)) in Hd as ->.
Qed.

(** C4: with no entry being edited, the submit handler trims the input;
    an empty result is refused (EmptyTitle); a result whose lower-cased
    form is the lower-cased title of an entry is refused (DuplicateTitle),
    which on titles stored trimmed is the comparison of normalized titles;
    otherwise a new entry with [completed = false] is put at the front of
    [todos] and [todos] is written to localStorage. *)
Theorem add_trims_checks_and_prepends s input uid :
  editingId s = None →
  let value := Str.trim input in
  (value = EmptyString → onSubmit input uid s = (s, Some EmptyTitle))
  ∧ (value ≠ EmptyString →
     (∃ t, t ∈ todos s ∧ Str.toLowerCase (title t) = Str.toLowerCase value) →
     onSubmit input uid s = (s, Some DuplicateTitle))
  ∧ (value ≠ EmptyString →
     Forall (λ t, Str.trim (title t) = title t) (todos s) →
     (∃ t, t ∈ todos s ∧ normalized (title t) = normalized input) →
     onSubmit input uid s = (s, Some DuplicateTitle))
  ∧ (value ≠ EmptyString →
     (∀ t, t ∈ todos s → Str.toLowerCase (title t) ≠ Str.toLowerCase value) →
     ∃ s', onSubmit input uid s = (s', None)
           ∧ todos s' = {| id := uid; title := value; completed := false |} :: todos s
           ∧ localStorage s' = Some (JSON_stringify (todos s'))).
Proof.
  intros He value. split_and!.
  - apply onSubmit_empty.
  - intros Hv (t & Ht & Hl). apply onSubmit_duplicate; [done|].
    exists t. by rewrite He.
  - intros Hv Htr (t & Ht & Hn). apply onSubmit_duplicate; [done|].
    exists t. rewrite He. split_and!; [done| |done].
    rewrite Forall_forall in Htr. by rewrite <- normalized_trimmed by auto.
  - intros Hv Hno. eexists. split.
    + apply onSubmit_accepted; [done|]. intros t Ht [Hl _]. by eapply Hno.
    + by rewrite He.
Qed.

Lemma add_trims_checks_and_prepends_witness :
  editingId (start None []) = None
  ∧ ∃ s', onSubmit "  Buy milk " "k1" (start None []) = (s', None)
          ∧ todos s' = [ {| id := "k1"; title := "Buy milk"; completed := false |} ].
Proof.
  split; [reflexivity|].
  destruct (add_trims_checks_and_prepends (start None []) "  Buy milk " "k1" eq_refl)
    as (_ & _ & _ & H).
  destruct H as (s' & H1 & H2 & _); [done|by intros t ?%elem_of_nil|].
  by exists s'.
Defined.

(** Scenario A: from the empty list, adding Buy milk gives one entry that is
    not completed, and adding BUY MILK after it is refused. *)
Example scenario_A :
  let s1 := fst (onSubmit "Buy milk" "k1" (start None [])) in
  todos s1 = [ {| id := "k1"; title := "Buy milk"; completed := false |} ]
  ∧ onSubmit "BUY MILK" "k2" s1 = (s1, Some DuplicateTitle).
Proof. vm_compute. done. Qed.

(** C5: with distinct ids and the entry of id [e] being edited, the submit
    handler trims the input and refuses an empty result (EmptyTitle); it
    refuses a result whose lower-cased form is the lower-cased title of an
    entry with another id (DuplicateTitle); the entry itself is left out of
    that check, so on a well-formed list its own title is accepted; when
    accepted, the title of the entry is replaced where it stands, ids and
    every other position are as before, and [todos] is written to
    localStorage. *)
Theorem edit_checks_others_and_updates_in_place s e input uid :
  NoDup (id <$> todos s) →
  editingId s = Some e → e ≠ EmptyString → e ∈ id <$> todos s →
  let value := Str.trim input in
  (value = EmptyString → onSubmit input uid s = (s, Some EmptyTitle))
  ∧ (value ≠ EmptyString →
     (∃ t, t ∈ todos s ∧ id t ≠ e
           ∧ Str.toLowerCase (title t) = Str.toLowerCase value) →
     onSubmit input uid s = (s, Some DuplicateTitle))
  ∧ (value ≠ EmptyString →
     (∀ t, t ∈ todos s → id t ≠ e →
           Str.toLowerCase (title t) ≠ Str.toLowerCase value) →
     ∃ s' idx t,
       onSubmit input uid s = (s', None)
       ∧ todos s !! idx = Some t ∧ id t = e
       ∧ todos s' !! idx
         = Some {| id := e; title := value; completed := completed t |}
       ∧ (∀ j, j ≠ idx → todos s' !! j = todos s !! j)
       ∧ id <$> todos s' = id <$> todos s
       ∧ length (todos s') = length (todos s)
       ∧ editingId s' = None
       ∧ localStorage s' = Some (JSON_stringify (todos s')))
  ∧ (well_formed (todos s) →
     ∀ t, t ∈ todos s → id t = e →
       ∃ s', onSubmit (title t) uid s = (s', None) ∧ todos s' = todos s).
Proof.
  intros Hnd He Hne Hin value.
  assert (editing (editingId s) = true) as Hed.
  { rewrite He. simpl. by apply negb_true_iff, is_empty_false. }
  assert (∃ idx t, findIndex (λ t, Some (id t) = editingId s) (todos s) = Some idx
                   ∧ todos s !! idx = Some t ∧ id t = e) as (idx & t0 & Hidx & Ht0 & Hid0).
  { apply list_elem_of_fmap in Hin as (u & -> & Hu).
    destruct (findIndex_is_Some (λ t, Some (id t) = editingId s) (todos s) u Hu)
      as [idx Hidx]; [by rewrite He|].
    destruct (findIndex_Some _ _ _ Hidx) as (t & Ht & Hid).
    exists idx, t. rewrite He in Hid. by simplify_eq. }
  split_and!.
  - apply onSubmit_empty.
  - intros Hv (t & Ht & Hid & Hl). apply onSubmit_duplicate; [done|].
    exists t. rewrite He. split_and!; [done..|congruence].
  - intros Hv Hno. exists (renderTodos (saveTodos (set_editingId None
      (set_todos (alter (with_title value) idx (todos s)) s)))), idx, t0.
    split_and!; [|done..| | | | |done|done].
    + rewrite onSubmit_accepted, Hed, Hidx; [done..|].
      intros t Ht [Hl Hid]. apply (Hno t); [done| |done]. rewrite He in Hid. congruence.
    + simpl. rewrite list_lookup_alter_eq, Ht0. simpl. by rewrite <- Hid0.
    + intros j Hj. simpl. by rewrite list_lookup_alter_ne.
    + by apply alter_keeps_ids.
    + apply length_alter.
  - intros [Hids _ Htrim HI1 HI2] t Ht Hid.
    unfold I2 in HI2. rewrite Forall_forall in Htrim. rewrite Forall_forall in HI2.
    assert (t0 = t) as ->.
    { eapply (fmap_inj_on id); [done| |done|congruence].
      by eapply list_elem_of_lookup_2. }
    exists (renderTodos (saveTodos (set_editingId None (set_todos (todos s) s)))).
    split; [|done].
    rewrite onSubmit_accepted, Hed, Hidx, (Htrim t Ht).
    + rewrite (alter_same _ _ _ t Ht0); [done|by destruct t].
    + by apply HI2.
    + intros u Hu [Hl Hidu]. apply Hidu. rewrite He, <- Hid.
      assert (u = t) as ->; [|done].
      eapply (fmap_inj_on (normalized ∘ title)); [exact HI1|done..|].
      simpl. rewrite !normalized_trimmed by auto. by rewrite Hl, (Htrim t Ht).
Qed.

Lemma edit_checks_others_and_updates_in_place_witness :
  let A := {| id := "a"; title := "Buy milk"; completed := false |} in
  let B := {| id := "b"; title := "Walk"; completed := true |} in
  let s := startEdit "b" (start None [A; B]) in
  NoDup (id <$> todos s)
  ∧ editingId s = Some "b" ∧ "b" ≠ EmptyString ∧ "b" ∈ id <$> todos s
  ∧ onSubmit " buy MILK  " "k" s = (s, Some DuplicateTitle).
Proof.
  intros A B s.
  assert (NoDup (id <$> todos s)) as Hnd by (by apply (bool_decide_unpack _)).
  assert ("b" ∈ id <$> todos s) as Hin by (by apply (bool_decide_unpack _)).
  split_and!; [exact Hnd|reflexivity|done|exact Hin|].
  destruct (edit_checks_others_and_updates_in_place s "b" " buy MILK  " "k"
              Hnd eq_refl ltac:(done) Hin) as (_ & H & _).
  apply H; [done|]. exists A. split_and!; [by left|done|reflexivity].
Defined.

(** Scenario E: an edit to a title that another entry carries in another
    case is refused, and an edit of an entry to its own title is accepted. *)
Example scenario_E :
  let A := {| id := "a"; title := "Buy milk"; completed := false |} in
  let B := {| id := "b"; title := "Walk"; completed := true |} in
  let s := startEdit "b" (start None [A; B]) in
  onSubmit "  buy MILK  " "k" s = (s, Some DuplicateTitle)
  ∧ snd (onSubmit "Walk" "k" s) = None
  ∧ todos (fst (onSubmit "Walk" "k" s)) = [A; B]
  ∧ todos (fst (onSubmit "walk the dog" "k" s))
    = [A; {| id := "b"; title := "walk the dog"; completed := true |}].
Proof. vm_compute. done. Qed.

(** C6: a refused submit (EmptyTitle or DuplicateTitle) returns the state it
    was given; a toggle or a delete for an id that no entry carries, and a
    submit while the edited id is carried by no entry, leave [todos] as it
    was. *)
Theorem failures_leave_collection_unchanged :
  (∀ s input uid a,
     snd (onSubmit input uid s) = Some a → fst (onSubmit input uid s) = s)
  ∧ (∀ s i checked, i ∉ id <$> todos s → onChange i checked s = s)
  ∧ (∀ s i confirmed, i ∉ id <$> todos s → todos (onDelete i confirmed s) = todos s)
  ∧ (∀ s e input uid,
       editingId s = Some e → e ≠ EmptyString → e ∉ id <$> todos s →
       todos (fst (onSubmit input uid s)) = todos s).
Proof.
  split_and!.
  - intros s input uid a. unfold onSubmit.
    destruct (Str.is_empty _); [done|]. by destruct (some _ _).
  - intros s i checked Hi. unfold onChange.
    destruct (findIndex _ _) as [idx|] eqn:Hf; [|done].
    apply findIndex_Some in Hf as (t & Ht & <-). destruct Hi.
    apply list_elem_of_fmap_2. by eapply list_elem_of_lookup_2.
  - intros s i confirmed Hi. unfold onDelete. destruct confirmed; [|done]. simpl.
    induction (todos s) as [|t c IH]; [done|].
    rewrite fmap_cons, not_elem_of_cons in Hi. destruct Hi as [Hne Hi].
    rewrite filter_cons_True by done. f_equal. by apply IH.
  - intros s e input uid He Hne Hi. unfold onSubmit.
    destruct (Str.is_empty _); [done|]. destruct (some _ _); [done|].
    rewrite He. simpl. apply is_empty_false in Hne as ->. simpl.
    destruct (findIndex _ _) as [idx|] eqn:Hf; [|done].
    apply findIndex_Some in Hf as (t & Ht & Hid). destruct Hi. simplify_eq.
    apply list_elem_of_fmap_2. by eapply list_elem_of_lookup_2.
Qed.

Lemma failures_leave_collection_unchanged_witness :
  let A := {| id := "a"; title := "Buy milk"; completed := false |} in
  let s := start None [A] in
  snd (onSubmit "   " "k" s) = Some EmptyTitle ∧ fst (onSubmit "   " "k" s) = s
  ∧ snd (onSubmit "BUY milk" "k" s) = Some DuplicateTitle
  ∧ fst (onSubmit "BUY milk" "k" s) = s
  ∧ ("zz" ∉ id <$> todos s) ∧ onChange "zz" true s = s
  ∧ todos (onDelete "zz" true s) = todos s
  ∧ todos (fst (onSubmit "Walk" "k" (set_editingId (Some "zz") s))) = todos s.
Proof.
  intros A s. destruct failures_leave_collection_unchanged as (H1 & H2 & H3 & H4).
  assert ("zz" ∉ id <$> todos s) as Hzz by (by apply (bool_decide_unpack _)).
  split_and!; [reflexivity|by eapply H1|reflexivity|by eapply H1|exact Hzz|
               by apply H2|by apply H3|].
  by apply (H4 (set_editingId (Some "zz") s) "zz").
Defined.

(** Scenario D: a toggle for an id that no entry carries changes nothing. *)
Example scenario_D :
  let A := {| id := "a"; title := "Buy milk"; completed := false |} in
  onChange "zz" true (start None [A]) = start None [A].
Proof. reflexivity. Qed.
End Submit.

(** ** Reading back what was written *)
Section Text.
Import JSON App.
Implicit Types (a b r : string) (c : ascii).

Lemma append_cons c a b : String c a +:+ b = String c (a +:+ b).
Proof. reflexivity. Qed.

Lemma append_nil b : EmptyString +:+ b = b.
Proof. reflexivity. Qed.

Lemma append_assoc a b r : (a +:+ b) +:+ r = a +:+ (b +:+ r).
Proof. induction a as [|c a IH]; [done|]. by rewrite !append_cons, IH. Qed.

Lemma chars_quote_unit c r :
  chars (quote_unit c +:+ r) = push (Str.code c) (chars r).
Proof. destruct c as [[] [] [] [] [] [] [] []]; reflexivity. Qed.

Lemma chars_quote_body a r :
  chars (quote_body a +:+ String "034"%char r) = Some (Str.units a, r).
Proof.
  induction a as [|c a IH]; [done|].
  simpl. by rewrite append_assoc, chars_quote_unit, IH.
Qed.

Lemma quote_append a r :
  quote a +:+ r = String "034"%char (quote_body a +:+ String "034"%char r).
Proof. unfold quote. by rewrite append_cons, append_assoc. Qed.

Lemma value_quote n a r : value (S n) (quote a +:+ r) = Done (JStr (Str.units a)) r.
Proof. rewrite quote_append. simpl. by rewrite chars_quote_body. Qed.

Ltac flatten_text :=
  repeat (rewrite append_assoc || rewrite append_cons || rewrite append_nil).

Lemma value_S n s :
  value (S n) s =
  match skip_ws s with
  | EmptyString => Reject
  | String c r =>
      if bool_decide (c = "["%char) then
        match strip "]"%char (skip_ws r) with
        | Some r' => Done (JArr []) r'
        | None => and_then (elements n r) (λ es r', Done (JArr es) r')
        end
      else if bool_decide (c = "{"%char) then
        match strip "}"%char (skip_ws r) with
        | Some r' => Done (JObj []) r'
        | None => and_then (members n r) (λ ms r', Done (JObj ms) r')
        end
      else if bool_decide (c = "034"%char) then
        match chars r with
        | Some (us, r') => Done (JStr us) r'
        | None => Reject
        end
      else if bool_decide (c = "t"%char) then literal "true" (JBool true) (String c r)
      else if bool_decide (c = "f"%char) then literal "false" (JBool false) (String c r)
      else if bool_decide (c = "n"%char) then literal "null" JNull (String c r)
      else number (String c r)
  end.
Proof. reflexivity. Qed.

Lemma elements_S n s :
  elements (S n) s =
  and_then (value n s) (λ v r,
    match skip_ws r with
    | String c r' =>
        if bool_decide (c = ","%char) then
          and_then (elements n r') (λ vs r'', Done (v :: vs) r'')
        else if bool_decide (c = "]"%char) then Done [v] r'
        else Reject
    | EmptyString => Reject
    end).
Proof. reflexivity. Qed.

Lemma members_S n s :
  members (S n) s =
  match strip "034"%char (skip_ws s) with
  | Some r =>
      match chars r with
      | Some (k, r1) =>
          match strip ":"%char (skip_ws r1) with
          | Some r2 =>
              and_then (value n r2) (λ v r3,
                match skip_ws r3 with
                | String c r4 =>
                    if bool_decide (c = ","%char) then
                      and_then (members n r4) (λ ms r5, Done ((k, v) :: ms) r5)
                    else if bool_decide (c = "}"%char) then Done [(k, v)] r4
                    else Reject
                | EmptyString => Reject
                end)
          | None => Reject
          end
      | None => Reject
      end
  | None => Reject
  end.
Proof. reflexivity. Qed.

Lemma value_bool n (x : bool) r :
  value (S n) (stringify_bool x +:+ r) = Done (JBool x) r.
Proof. by destruct x. Qed.

(** One member [key:value] before a comma, and before the closing brace. *)
Lemma members_more n key v a r :
  (∀ r', value n (a +:+ r') = Done v r') →
  members (S n) (quote key +:+ ":" +:+ a +:+ "," +:+ r) =
    and_then (members n r) (λ ms r5, Done ((Str.units key, v) :: ms) r5).
Proof.
  intros Hv. flatten_text. rewrite members_S, quote_append. simpl.
  rewrite chars_quote_body. simpl. by rewrite Hv.
Qed.

Lemma members_last n key v a r :
  (∀ r', value n (a +:+ r') = Done v r') →
  members (S n) (quote key +:+ ":" +:+ a +:+ "}" +:+ r) = Done [(Str.units key, v)] r.
Proof.
  intros Hv. flatten_text. rewrite members_S, quote_append. simpl.
  rewrite chars_quote_body. simpl. by rewrite Hv.
Qed.

Lemma value_object n key r :
  value (S n) ("{" +:+ quote key +:+ r) =
    and_then (members n (quote key +:+ r)) (λ ms r', Done (JObj ms) r').
Proof. by rewrite quote_append. Qed.

Lemma value_item n t r :
  value (S (S (S (S (S n))))) (stringify_item t +:+ r) = Done (item_json t) r.
Proof.
  unfold stringify_item. rewrite !append_assoc, value_object.
  rewrite (members_more _ "id" (JStr (Str.units (id t))) (quote (id t)))
    by (intros; apply value_quote).
  rewrite (members_more _ "title" (JStr (Str.units (title t))) (quote (title t)))
    by (intros; apply value_quote).
  rewrite (members_last _ "completed" (JBool (completed t))
             (stringify_bool (completed t)))
    by (intros; apply value_bool).
  done.
Qed.

Lemma value_item_fuel n t r :
  5 ≤ n → value n (stringify_item t +:+ r) = Done (item_json t) r.
Proof.
  intros Hn. do 5 (destruct n as [|n]; [lia|]). apply value_item.
Qed.

Lemma elements_more n v a r :
  (∀ r', value n (a +:+ r') = Done v r') →
  elements (S n) (a +:+ "," +:+ r) =
    and_then (elements n r) (λ vs r', Done (v :: vs) r').
Proof. intros Hv. flatten_text. by rewrite elements_S, Hv. Qed.

Lemma elements_last n v a r :
  (∀ r', value n (a +:+ r') = Done v r') →
  elements (S n) (a +:+ "]" +:+ r) = Done [v] r.
Proof. intros Hv. flatten_text. by rewrite elements_S, Hv. Qed.

Lemma elements_join n l r :
  l ≠ [] →
  elements (length l + (5 + n)) (join_items l +:+ "]" +:+ r) = Done (item_json <$> l) r.
Proof.
  induction l as [|t l IH]; [done|]. intros _.
  change (length (t :: l) + (5 + n)) with (S (length l + (5 + n))).
  destruct l as [|u l].
  - change (join_items [t]) with (stringify_item t).
    apply elements_last. intros r'. apply value_item_fuel. simpl. lia.
  - change (join_items (t :: u :: l))
      with (stringify_item t +:+ "," +:+ join_items (u :: l)).
    rewrite !append_assoc.
    rewrite (elements_more _ (item_json t))
      by (intros r'; apply value_item_fuel; simpl; lia).
    by rewrite IH.
Qed.

Lemma length_append a b :
  String.length (a +:+ b) = String.length a + String.length b.
Proof. induction a as [|c a IH]; [done|]. rewrite append_cons. simpl. by rewrite IH. Qed.

Lemma length_join_items l : length l ≤ String.length (join_items l).
Proof.
  induction l as [|t l IH]; [done|].
  destruct l as [|u l].
  - change (join_items [t]) with (stringify_item t). unfold stringify_item.
    rewrite length_append. simpl. lia.
  - change (join_items (t :: u :: l))
      with (stringify_item t +:+ "," +:+ join_items (u :: l)).
    rewrite !length_append. unfold stringify_item at 1.
    rewrite length_append. simpl in *. lia.
Qed.

Lemma value_array n t r :
  value (S n) ("[" +:+ stringify_item t +:+ r) =
    and_then (elements n (stringify_item t +:+ r)) (λ es r', Done (JArr es) r').
Proof. reflexivity. Qed.

Lemma join_items_head t l :
  ∃ r, join_items (t :: l) +:+ "]" = stringify_item t +:+ r.
Proof.
  destruct l as [|u l]; [by eexists|].
  change (join_items (t :: u :: l))
    with (stringify_item t +:+ "," +:+ join_items (u :: l)).
  rewrite append_assoc. by eexists.
Qed.

(** Parsing the text written for [l] gives the array of its entries. *)
Lemma parse_stringify l : JSON_parse (JSON_stringify l) = Some (todos_json l).
Proof.
  destruct l as [|t l]; [done|].
  unfold JSON_parse, JSON_stringify.
  pose proof (length_join_items (t :: l)) as Hlen.
  set (m := String.length ("[" +:+ join_items (t :: l) +:+ "]")).
  assert (∃ n, 2 * m + 1 = S (length (t :: l) + (5 + n))) as [n ->].
  { exists (2 * m - (length (t :: l) + 5)). subst m.
    rewrite !length_append. simpl in *. lia. }
  destruct (join_items_head t l) as [r Hr].
  rewrite Hr, value_array, <- Hr.
  rewrite <- (append_nil "]"). change ("" +:+ "]") with ("]" +:+ "").
  by rewrite elements_join.
Qed.
End Text.

(** ** Persistence *)
Section Persistence.
Import JSON App.
Implicit Types (s : State) (l : list Item) (stored : option string).

Lemma units_inj (a b : string) : Str.units a = Str.units b → a = b.
Proof.
  revert b. induction a as [|c a IH]; intros [|d b] H; simplify_eq/=; [done|].
  f_equal; [|by apply IH].
  unfold Str.code in *. by rewrite <- (ascii_N_embedding c), <- (ascii_N_embedding d), H.
Qed.

Lemma item_json_inj (t u : Item) : item_json t = item_json u → t = u.
Proof.
  destruct t, u. unfold item_json. simpl. intros H. simplify_eq.
  f_equal; by apply units_inj.
Qed.

Lemma todos_json_inj l l' : todos_json l = todos_json l' → l = l'.
Proof.
  unfold todos_json. intros H. injection H as H. revert l' H.
  induction l as [|t l IH]; intros [|u l'] H; try done.
  rewrite !fmap_cons in H. apply (inj2 cons) in H as [H1 H2].
  f_equal; [by apply item_json_inj|by apply IH].
Qed.

Lemma loadTodos_stringify l : loadTodos (Some (JSON_stringify l)) = todos_json l.
Proof. unfold loadTodos. by rewrite parse_stringify. Qed.

(** C9: what [loadTodos] reads from the text that [saveTodos] wrote is the
    array of the entries of [todos]: the same entries in the same order,
    each with its id, title and completed flag, and no other list of
    entries has that array. *)
Theorem save_then_load_reproduces s :
  loadTodos (localStorage (saveTodos s)) = todos_json (todos s)
  ∧ (∀ l, loadTodos (localStorage (saveTodos s)) = todos_json l → l = todos s)
  ∧ todos (start (localStorage (saveTodos s)) (todos s)) = todos s
  ∧ reachable (localStorage (saveTodos s)) (start (localStorage (saveTodos s)) (todos s)).
Proof.
  pose proof (loadTodos_stringify (todos s)) as H.
  split_and!; [exact H| |reflexivity|].
  - intros l Hl. apply todos_json_inj. rewrite <- Hl. exact H.
  - constructor. exact H.
Qed.

(** What the claim C3 says fails on a stored text that parses to something
    other than an array of entries: an object, or an array of numbers, is
    what [loadTodos] leaves in [todos]. *)
Lemma load_keeps_what_is_not_a_collection :
  JSON_parse "{}" = Some (JObj [])
  ∧ (∀ l, todos_json l = JObj [] → False)
  ∧ loadTodos (Some "{}") = JObj []
  ∧ (loadTodos (Some "{}") = JArr [] → False)
  ∧ JSON_parse "[1]" = Some (JArr [JNum false 1 0])
  ∧ (∀ l, todos_json l = JArr [JNum false 1 0] → False)
  ∧ loadTodos (Some "[1]") = JArr [JNum false 1 0].
Proof.
  split_and!; try reflexivity; try done.
  intros [|t [|u l]]; done.
Qed.

(** C3, amended: [loadTodos] always leaves a value in [todos] (the
    SyntaxError of [JSON.parse] is caught); that value is the empty array
    when nothing is stored, when the stored text is empty, when it does not
    parse, and when it parses to a falsy value; a text that parses to
    anything else leaves that value, array of entries or not. *)
Theorem load_empty_unless_parsed_truthy :
  loadTodos None = JArr []
  ∧ loadTodos (Some EmptyString) = JArr []
  ∧ (∀ raw, JSON_parse raw = None → loadTodos (Some raw) = JArr [])
  ∧ (∀ raw v, JSON_parse raw = Some v → truthy v = false →
              loadTodos (Some raw) = JArr [])
  ∧ (∀ raw v, raw ≠ EmptyString → JSON_parse raw = Some v → truthy v = true →
              loadTodos (Some raw) = v)
  ∧ (∀ stored, loadTodos stored = JArr []
               ∨ ∃ raw v, stored = Some raw ∧ JSON_parse raw = Some v
                          ∧ truthy v = true ∧ loadTodos stored = v).
Proof.
  split_and!; [done..| | | |].
  - intros raw H. unfold loadTodos. rewrite H. by destruct (Str.is_empty raw).
  - intros raw v H Hv. unfold loadTodos. rewrite H, Hv. by destruct (Str.is_empty raw).
  - intros raw v Hne%is_empty_false H Hv. unfold loadTodos. by rewrite Hne, H, Hv.
  - intros [raw|]; [|by left]. unfold loadTodos.
    destruct (Str.is_empty raw); [by left|].
    destruct (JSON_parse raw) as [v|] eqn:Hp; [|by left].
    destruct (truthy v) eqn:Hv; [|by left]. right. by exists raw, v.
Qed.

Lemma load_empty_unless_parsed_truthy_witness :
  JSON_parse "[1,]" = None ∧ loadTodos (Some "[1,]") = JArr []
  ∧ JSON_parse "0.0" = Some (JNum false 0 (-1)) ∧ loadTodos (Some "0.0") = JArr []
  ∧ JSON_parse "null" = Some JNull ∧ loadTodos (Some "null") = JArr [].
Proof.
  destruct load_empty_unless_parsed_truthy as (_ & _ & H1 & H2 & _).
  split_and!; [reflexivity|by apply H1|reflexivity|by eapply H2|reflexivity|by eapply H2].
Defined.
End Persistence.

(** ** Titles stay distinct *)
Section Invariant.
Import JSON App.
Implicit Types (c : list Item) (s : State) (v : string).

Lemma trimStart_no_lead v : no_lead (Str.trimStart v).
Proof.
  induction v as [|a v IH]; [done|]. simpl.
  destruct (Str.is_space a) eqn:Ha; [done|]. simpl. done.
Qed.

Lemma trimStart_id v : no_lead v → Str.trimStart v = v.
Proof. destruct v as [|a v]; [done|]. simpl. by intros ->. Qed.

Lemma trimEnd_no_lead v : no_lead v → no_lead (Str.trimEnd v).
Proof. destruct v as [|a v]; [done|]. simpl. intros Ha. by rewrite Ha. Qed.

Lemma trimEnd_idem v : Str.trimEnd (Str.trimEnd v) = Str.trimEnd v.
Proof.
  induction v as [|a v IH]; [done|]. simpl.
  destruct (Str.is_space a && Str.is_empty (Str.trimEnd v)) eqn:Hc; [done|].
  simpl. by rewrite IH, Hc.
Qed.

Lemma trim_idem v : Str.trim (Str.trim v) = Str.trim v.
Proof.
  unfold Str.trim.
  rewrite (trimStart_id (Str.trimEnd _)); [apply trimEnd_idem|].
  apply trimEnd_no_lead, trimStart_no_lead.
Qed.

(** [well_formed] speaks of the ids and the titles only. *)
Lemma well_formed_lists c :
  well_formed c ↔
  NoDup (id <$> c) ∧ Forall (λ i, i ≠ EmptyString) (id <$> c)
  ∧ Forall (λ v, Str.trim v = v) (title <$> c)
  ∧ NoDup (normalized <$> (title <$> c))
  ∧ Forall (λ v, Str.trim v ≠ EmptyString) (title <$> c).
Proof.
  unfold I1, I2. rewrite !Forall_fmap, <- list_fmap_compose.
  split.
  - intros [H1 H2 H3 H4 H5]. split_and!; [exact H1|exact H2|exact H3|exact H4|exact H5].
  - intros (H1 & H2 & H3 & H4 & H5). split; [exact H1|exact H2|exact H3|exact H4|exact H5].
Qed.

Lemma well_formed_nil : well_formed [].
Proof. apply well_formed_lists. simpl. split_and!; constructor. Qed.

Lemma well_formed_ext c c' :
  id <$> c' = id <$> c → title <$> c' = title <$> c → well_formed c → well_formed c'.
Proof. rewrite !well_formed_lists. by intros -> ->. Qed.

Lemma Forall_sub {A} (P : A → Prop) (l k : list A) :
  k `sublist_of` l → Forall P l → Forall P k.
Proof.
  rewrite !Forall_forall. intros Hs H x Hx. apply H. by eapply elem_of_sublist.
Qed.

Lemma well_formed_sublist c c' : c' `sublist_of` c → well_formed c → well_formed c'.
Proof.
  rewrite !well_formed_lists. intros Hs (H1 & H2 & H3 & H4 & H5).
  assert (id <$> c' `sublist_of` id <$> c) as Hi by by apply fmap_sublist.
  assert (title <$> c' `sublist_of` title <$> c) as Ht by by apply fmap_sublist.
  split_and!.
  - eapply sublist_NoDup; [exact H1|done].
  - eapply Forall_sub; [exact Hi|done].
  - eapply Forall_sub; [exact Ht|done].
  - eapply sublist_NoDup; [exact H4|]. by apply fmap_sublist.
  - eapply Forall_sub; [exact Ht|done].
Qed.

Lemma well_formed_Permutation c c' : c' ≡ₚ c → well_formed c → well_formed c'.
Proof.
  rewrite !well_formed_lists. intros Hp (H1 & H2 & H3 & H4 & H5).
  assert (id <$> c' ≡ₚ id <$> c) as Hi by by rewrite Hp.
  assert (title <$> c' ≡ₚ title <$> c) as Ht by by rewrite Hp.
  split_and!.
  - by rewrite Hi.
  - by rewrite Hi.
  - by rewrite Ht.
  - by rewrite Ht.
  - by rewrite Ht.
Qed.

Lemma well_formed_cons c i v (done_ : bool) :
  well_formed c → i ≠ EmptyString → i ∉ id <$> c →
  Str.trim v = v → v ≠ EmptyString →
  (∀ t, t ∈ c → Str.toLowerCase (title t) ≠ Str.toLowerCase v) →
  well_formed ({| id := i; title := v; completed := done_ |} :: c).
Proof.
  intros [H1 H2 H3 H4 H5] Hi Hni Hv Hne Hno. split.
  - rewrite fmap_cons. by constructor.
  - by constructor.
  - by constructor.
  - unfold I1 in *. rewrite fmap_cons. constructor; [|done].
    intros (t & Heq & Ht)%list_elem_of_fmap. simpl in Heq.
    rewrite Forall_forall in H3.
    rewrite !normalized_trimmed in Heq by auto. by eapply Hno.
  - constructor; [|done]. simpl. by rewrite Hv.
Qed.

Lemma alter_insert (g : Item → Item) c k t :
  c !! k = Some t → alter g k c = <[k := g t]> c.
Proof.
  intros Hk. apply list_eq. intros j. destruct (decide (k = j)) as [<-|Hne].
  - rewrite list_lookup_alter_eq, Hk. simpl.
    by rewrite list_lookup_insert_eq by by eapply lookup_lt_Some.
  - by rewrite list_lookup_alter_ne, list_lookup_insert_ne.
Qed.

Lemma NoDup_insert_fresh {A} (l : list A) k x :
  NoDup l → (∀ j y, l !! j = Some y → j ≠ k → y ≠ x) → NoDup (<[k := x]> l).
Proof.
  rewrite !NoDup_alt. intros Hnd Hx i j y Hi Hj.
  apply list_lookup_insert_Some in Hi as [(Hki & Hxy & _)|[Hik Hi]];
    apply list_lookup_insert_Some in Hj as [(Hkj & Hxy' & _)|[Hjk Hj]].
  - congruence.
  - subst. by destruct (Hx j y Hj).
  - subst. by destruct (Hx i y Hi).
  - by eapply Hnd.
Qed.

Lemma well_formed_retitle c k t v :
  well_formed c → c !! k = Some t →
  Str.trim v = v → v ≠ EmptyString →
  (∀ u, u ∈ c → id u ≠ id t → Str.toLowerCase (title u) ≠ Str.toLowerCase v) →
  well_formed (alter (with_title v) k c).
Proof.
  intros Hwf Hk Hv Hne Hno. pose proof Hwf as [H1 H2 H3 H4 H5].
  apply well_formed_lists.
  rewrite alter_keeps_ids by done. rewrite (alter_insert _ _ _ t) by done.
  rewrite !list_fmap_insert. simpl.
  apply well_formed_lists in Hwf as (_ & ? & ? & ? & ?).
  split_and!; [done..| | |].
  - by apply Forall_insert.
  - apply NoDup_insert_fresh; [done|]. intros j y Hj Hjk.
    rewrite !list_lookup_fmap in Hj.
    destruct (c !! j) as [u|] eqn:Hu; [|done]. simpl in Hj. simplify_eq.
    rewrite Forall_forall in H3.
    rewrite !normalized_trimmed; [|done|by eapply H3, list_elem_of_lookup_2].
    apply Hno; [by eapply list_elem_of_lookup_2|].
    intros Hid. apply Hjk. eapply NoDup_lookup; [exact H1| |];
      rewrite list_lookup_fmap; [by rewrite Hu|by rewrite Hk; simpl; rewrite Hid].
  - apply Forall_insert; [done|]. by rewrite Hv.
Qed.

Lemma consistent_saved_rendered s :
  well_formed (todos s) → consistent (renderTodos (saveTodos s)).
Proof. by split. Qed.

Lemma consistent_submit s input uid :
  consistent s → uid ≠ EmptyString → uid ∉ id <$> todos s →
  consistent (fst (onSubmit input uid s)).
Proof.
  intros [Hwf Hrows] Hu Hfresh.
  destruct (decide (Str.trim input = EmptyString)) as [He|Hne].
  { by rewrite onSubmit_empty. }
  destruct (some (λ t, Str.toLowerCase (title t) = Str.toLowerCase (Str.trim input)
                       ∧ Some (id t) ≠ editingId s) (todos s)) eqn:Hd.
  { apply some_true in Hd. by rewrite onSubmit_duplicate. }
  pose proof (proj1 (some_false _ _) Hd) as Hno. clear Hd.
  rewrite onSubmit_accepted by done. simpl fst.
  apply consistent_saved_rendered.
  destruct (editing (editingId s)) eqn:Hed.
  - destruct (findIndex _ _) as [k|] eqn:Hk; [|done].
    apply findIndex_Some in Hk as (t & Hk & Hid). simpl.
    eapply well_formed_retitle; [done|exact Hk|apply trim_idem|done|].
    intros u Hin Hne' Hl. apply (Hno u Hin). split; [done|].
    rewrite <- Hid. congruence.
  - simpl. apply well_formed_cons; [done..|apply trim_idem|done|].
    intros t Hin Hl. apply (Hno t Hin). split; [done|].
    destruct (editingId s) as [e|]; [|done].
    simpl in Hed. apply negb_false_iff, is_empty_true in Hed as ->.
    destruct Hwf as [_ Hids _ _ _]. rewrite Forall_forall in Hids.
    intros [=]. by eapply Hids.
Qed.

Lemma consistent_handle e s : consistent s → possible e s → consistent (handle e s).
Proof.
  intros Hc Hp. pose proof Hc as [Hwf Hrows].
  destruct e as [input uid|i x|i x|i|f|q|x|order|]; simpl in *.
  - destruct Hp. by apply consistent_submit.
  - unfold onChange. destruct (findIndex _ _) as [k|]; [|done].
    apply consistent_saved_rendered. simpl.
    eapply well_formed_ext; [| |exact Hwf].
    + by apply alter_keeps_ids.
    + by apply alter_keeps_titles.
  - unfold onDelete. destruct x; [|done].
    apply consistent_saved_rendered. simpl.
    eapply well_formed_sublist; [|exact Hwf]. apply sublist_filter; apply _.
  - unfold startEdit. by destruct (find _ _).
  - by split.
  - by split.
  - unfold onClear. destruct x; [|done].
    apply consistent_saved_rendered. apply well_formed_nil.
  - apply consistent_saved_rendered. simpl.
    rewrite Hrows in Hp.
    eapply well_formed_Permutation; [|exact Hwf].
    destruct Hwf as [Hids _ _ _ _].
    apply reconcile_Permutation; [done| |by eapply ids_of_rows].
    rewrite Hp. eapply sublist_NoDup; [exact Hids|].
    apply fmap_sublist, shown_sublist.
  - by split.
Qed.

Lemma consistent_reachable stored s :
  (∀ l, loadTodos stored = todos_json l → well_formed l) →
  reachable stored s → consistent s.
Proof.
  intros Hl. induction 1 as [l Hload|s e Hr IH Hp].
  - split; [by apply Hl|done].
  - by apply consistent_handle.
Qed.

Lemma well_formed_I1_lookup c j k t u :
  I1 c → c !! j = Some t → c !! k = Some u →
  normalized (title t) = normalized (title u) → j = k.
Proof.
  unfold I1. intros Hnd Hj Hk Heq.
  eapply NoDup_lookup; [exact Hnd| |]; rewrite list_lookup_fmap.
  - by rewrite Hj.
  - rewrite Hk. simpl. by rewrite Heq.
Qed.

(** What the claim C8 says fails after a load: the text below is a stored
    value that [loadTodos] accepts, and the state the page starts in holds
    two entries whose titles are equal once trimmed and lower-cased. *)
Lemma load_admits_duplicate_titles :
  let A := {| id := "a"; title := "Milk"; completed := false |} in
  let B := {| id := "b"; title := " MILK "; completed := false |} in
  let stored :=
    Some (Str.text "[{'id':'a','title':'Milk','completed':false},{'id':'b','title':' MILK ','completed':false}]") in
  loadTodos stored = todos_json [A; B]
  ∧ reachable stored (start stored [A; B])
  ∧ todos (start stored [A; B]) = [A; B]
  ∧ normalized (title A) = normalized (title B)
  ∧ (I1 (todos (start stored [A; B])) → False).
Proof.
  intros A B stored.
  assert (loadTodos stored = todos_json [A; B]) as Hl by (by vm_compute).
  split_and!; [exact Hl|by constructor|reflexivity|reflexivity|].
  intros H. apply NoDup_cons in H as [H _]. apply H. by left.
Qed.

(** C8, amended: if the entries that [loadTodos] finds are well formed
    (distinct non-empty ids, titles stored trimmed, non-empty and pairwise
    distinct once lower-cased), as they are when nothing is stored, then in
    every state the page reaches through its handlers no two entries have
    titles that are equal after trimming and lower-casing. *)
Theorem titles_stay_distinct stored s :
  (∀ l, loadTodos stored = todos_json l → well_formed l) →
  reachable stored s →
  I1 (todos s)
  ∧ ∀ j k t u, todos s !! j = Some t → todos s !! k = Some u →
               normalized (title t) = normalized (title u) → j = k.
Proof.
  intros Hl Hr. destruct (consistent_reachable stored s Hl Hr) as [[_ _ _ HI1 _] _].
  split; [done|]. intros j k t u. by apply well_formed_I1_lookup.
Qed.

Lemma titles_stay_distinct_witness :
  let s := handle (Submit "Walk" "k2")
             (handle (Submit " Buy milk" "k1") (start None [])) in
  (∀ l, loadTodos None = todos_json l → well_formed l)
  ∧ reachable None s
  ∧ title <$> todos s = ["Walk"; "Buy milk"]
  ∧ I1 (todos s).
Proof.
  intros s.
  assert (∀ l, loadTodos None = todos_json l → well_formed l) as Hl.
  { intros l Hl. apply (todos_json_inj []) in Hl as <-. apply well_formed_nil. }
  assert (reachable None s) as Hr.
  { repeat (apply reach_step); [by constructor|..]; simpl.
    - split; [done|]. apply not_elem_of_nil.
    - split; [done|]. by apply (bool_decide_unpack _). }
  split_and!; [exact Hl|exact Hr|reflexivity|].
  exact (proj1 (titles_stay_distinct None s Hl Hr)).
Defined.
End Invariant.

(** ** [JSON_parse] never runs out of steps *)
Section Fuel.
Import JSON.
Implicit Types (s r : string) (n : nat).

Lemma skip_ws_len s : String.length (skip_ws s) ≤ String.length s.
Proof. induction s as [|c s IH]; [done|]. simpl. destruct (is_ws c); simpl; lia. Qed.

Lemma skip_ws_cons_len s c r : skip_ws s = String c r → String.length r < String.length s.
Proof. intros H. pose proof (skip_ws_len s) as Hl. rewrite H in Hl. simpl in Hl. lia. Qed.

Lemma strip_len c s r : strip c s = Some r → String.length r < String.length s.
Proof.
  destruct s as [|c' s]; [done|]. simpl. case_bool_decide; [|done].
  intros [= ->]. lia.
Qed.

Lemma push_Some u o us r :
  push u o = Some (us, r) → ∃ us', o = Some (us', r).
Proof. destruct o as [[us' r']|]; [|done]. simpl. intros [= _ ->]. by eexists. Qed.

Lemma chars_len s us r : chars s = Some (us, r) → String.length r < String.length s.
Proof.
  remember (String.length s) as k eqn:Hk. revert s us r Hk.
  induction k as [k IH] using lt_wf_ind. intros s us r -> H.
  destruct s as [|c s]; [done|]. simpl in H.
  case_bool_decide; [simplify_eq/=; lia|].
  case_bool_decide.
  - destruct s as [|e s]; [done|]. case_bool_decide.
    + destruct s as [|h1 [|h2 [|h3 [|h4 s]]]]; try done.
      destruct (hex4 _ _ _ _); [|done].
      apply push_Some in H as [us' H].
      apply (IH (String.length s)) in H; simpl; [lia|lia|done].
    + destruct (escaped e); [|done].
      apply push_Some in H as [us' H].
      apply (IH (String.length s)) in H; simpl; [lia|lia|done].
  - destruct (Str.code c <? 32)%N; [done|].
    apply push_Some in H as [us' H].
    apply (IH (String.length s)) in H; simpl; [lia|lia|done].
Qed.

Lemma digits_len s acc cnt m k r : digits s acc cnt = (m, k, r) → String.length r ≤ String.length s.
Proof.
  revert acc cnt. induction s as [|c s IH]; intros acc cnt H; simpl in H.
  - by simplify_eq.
  - destruct (digit c).
    + apply IH in H. simpl. lia.
    + by simplify_eq.
Qed.

Lemma after_len w s r : after w s = Some r → String.length r + String.length w = String.length s.
Proof.
  revert s. induction w as [|a w IH]; intros s H; simpl in H.
  - simplify_eq. simpl. lia.
  - destruct s as [|b s]; [done|]. case_bool_decide; [|done].
    apply IH in H. simpl. lia.
Qed.

Lemma literal_len w v s v' r :
  w ≠ EmptyString → literal w v s = Done v' r → String.length r < String.length s.
Proof.
  unfold literal. intros Hw H. destruct (after w s) as [r'|] eqn:Ha; [|done].
  simplify_eq. apply after_len in Ha. destruct w; [done|]. simpl in Ha. lia.
Qed.

Lemma number_len s v r : number s = Done v r → String.length r < String.length s.
Proof.
  unfold number. intros H.
  destruct (match strip "-"%char s with Some r0 => (true, r0) | None => (false, s) end)
    as [neg s1] eqn:H1.
  assert (String.length s1 ≤ String.length s) as L1.
  { destruct (strip "-"%char s) eqn:Hs; simplify_eq; [|done].
    apply strip_len in Hs. lia. }
  destruct (int_part s1) as [[m s2]|] eqn:H2; [|done].
  assert (String.length s2 < String.length s1) as L2.
  { unfold int_part in H2. destruct s1 as [|c s1]; [done|].
    destruct (digit c) as [d|]; [|done].
    destruct d.
    - simplify_eq. simpl. lia.
    - destruct (digits s1 _ 0) as [[m' k'] r'] eqn:Hd. simplify_eq.
      apply digits_len in Hd. simpl. lia. }
  destruct (frac_part m s2) as [[[m' e1] s3]|] eqn:H3; [|done].
  assert (String.length s3 ≤ String.length s2) as L3.
  { unfold frac_part in H3. destruct (strip "."%char s2) as [r0|] eqn:Hs.
    - destruct (digits r0 m 0) as [[m'' k''] r''] eqn:Hd.
      destruct k''; [done|]. simplify_eq.
      apply digits_len in Hd. apply strip_len in Hs. lia.
    - by simplify_eq. }
  destruct (exp_part s3) as [[e2 s4]|] eqn:H4; [|done].
  assert (String.length s4 ≤ String.length s3) as L4.
  { unfold exp_part in H4. destruct s3 as [|c s3]; [by simplify_eq|].
    destruct (bool_decide (c = "e"%char) || bool_decide (c = "E"%char)); [|by simplify_eq].
    destruct (match strip "-"%char s3, strip "+"%char s3 with
              | Some r1, _ => (true, r1)
              | None, Some r1 => (false, r1)
              | None, None => (false, s3)
              end) as [sg r1] eqn:Hsg.
    assert (String.length r1 ≤ String.length s3) as L.
    { destruct (strip "-"%char s3) eqn:Ha.
      - simplify_eq. apply strip_len in Ha. lia.
      - destruct (strip "+"%char s3) eqn:Hb; simplify_eq; [|done].
        apply strip_len in Hb. lia. }
    destruct (digits r1 0 0) as [[e k] r2] eqn:Hd.
    destruct k; [done|]. simplify_eq. apply digits_len in Hd. simpl. lia. }
  simplify_eq. lia.
Qed.

Lemma and_then_Done {A B} (o : outcome A) (k : A → string → outcome B) b r :
  and_then o k = Done b r → ∃ a r', o = Done a r' ∧ k a r' = Done b r.
Proof. destruct o; [|done..]. simpl. by eexists _, _. Qed.

Lemma and_then_Starved {A B} (o : outcome A) (k : A → string → outcome B) :
  and_then o k = Starved → o = Starved ∨ ∃ a r', o = Done a r' ∧ k a r' = Starved.
Proof. destruct o; [|done|by left]. simpl. right. by eexists _, _. Qed.

(** Whatever is read is read from the text: something is consumed. *)
Lemma read_consumes n :
  (∀ s v r, value n s = Done v r → String.length r < String.length s)
  ∧ (∀ s vs r, elements n s = Done vs r → String.length r < String.length s)
  ∧ (∀ s ms r, members n s = Done ms r → String.length r < String.length s).
Proof.
  induction n as [|n (IHv & IHe & IHm)]; [done|]. split_and!.
  - intros s v r. rewrite value_S.
    destruct (skip_ws s) as [|c s'] eqn:Hs; [done|].
    apply skip_ws_cons_len in Hs.
    repeat case_bool_decide.
    + destruct (strip _ _) as [r'|] eqn:Hst.
      * intros [= _ ->]. apply strip_len in Hst.
        pose proof (skip_ws_len s'). lia.
      * intros (es & r' & He & [= _ ->])%and_then_Done. apply IHe in He. lia.
    + destruct (strip _ _) as [r'|] eqn:Hst.
      * intros [= _ ->]. apply strip_len in Hst.
        pose proof (skip_ws_len s'). lia.
      * intros (es & r' & He & [= _ ->])%and_then_Done. apply IHm in He. lia.
    + destruct (chars s') as [[us r']|] eqn:Hc; [|done].
      intros [= _ ->]. apply chars_len in Hc. lia.
    + intros Hl. apply literal_len in Hl; [simpl in Hl; lia|done].
    + intros Hl. apply literal_len in Hl; [simpl in Hl; lia|done].
    + intros Hl. apply literal_len in Hl; [simpl in Hl; lia|done].
    + intros Hl. apply number_len in Hl. simpl in Hl. lia.
  - intros s vs r. rewrite elements_S.
    intros (v & r1 & Hv & H)%and_then_Done. apply IHv in Hv.
    destruct (skip_ws r1) as [|c r2] eqn:Hs; [done|].
    apply skip_ws_cons_len in Hs. repeat case_bool_decide; [| |done].
    + apply and_then_Done in H as (vs' & r3 & He & [= _ ->]). apply IHe in He. lia.
    + injection H as _ ->. lia.
  - intros s ms r. rewrite members_S.
    destruct (strip _ (skip_ws s)) as [r0|] eqn:H0; [|done].
    apply strip_len in H0. pose proof (skip_ws_len s).
    destruct (chars r0) as [[k r1]|] eqn:H1; [|done]. apply chars_len in H1.
    destruct (strip _ (skip_ws r1)) as [r2|] eqn:H2; [|done].
    apply strip_len in H2. pose proof (skip_ws_len r1).
    intros (v & r3 & Hv & H')%and_then_Done. apply IHv in Hv.
    destruct (skip_ws r3) as [|c r4] eqn:Hs; [done|].
    apply skip_ws_cons_len in Hs. repeat case_bool_decide; [| |done].
    + apply and_then_Done in H' as (ms' & r5 & Hm & [= _ ->]). apply IHm in Hm. lia.
    + injection H' as _ ->. lia.
Qed.

Lemma literal_not_Starved w v s : literal w v s ≠ Starved.
Proof. unfold literal. by destruct (after w s). Qed.

Lemma number_not_Starved s : number s ≠ Starved.
Proof.
  unfold number.
  destruct (match strip "-"%char s with Some r0 => (true, r0) | None => (false, s) end).
  destruct (int_part _) as [[m s2]|]; [|done].
  destruct (frac_part _ _) as [[[m' e1] s3]|]; [|done].
  by destruct (exp_part _) as [[e2 s4]|].
Qed.

(** With more steps than twice the length of the text, no reading stops for
    lack of steps. *)
Lemma read_not_Starved n :
  (∀ s, 2 * String.length s < n → value n s ≠ Starved)
  ∧ (∀ s, 2 * String.length s + 1 < n → elements n s ≠ Starved)
  ∧ (∀ s, 2 * String.length s + 1 < n → members n s ≠ Starved).
Proof.
  induction n as [|n (IHv & IHe & IHm)]; [split_and!; intros; lia|].
  destruct (read_consumes n) as (Cv & Ce & Cm). split_and!.
  - intros s Hn. rewrite value_S.
    destruct (skip_ws s) as [|c s'] eqn:Hs; [done|].
    apply skip_ws_cons_len in Hs.
    repeat case_bool_decide.
    + destruct (strip _ _); [done|].
      intros [He|(es & r' & _ & [=])]%and_then_Starved. revert He. apply IHe. lia.
    + destruct (strip _ _); [done|].
      intros [He|(es & r' & _ & [=])]%and_then_Starved. revert He. apply IHm. lia.
    + by destruct (chars s') as [[us r']|].
    + apply literal_not_Starved.
    + apply literal_not_Starved.
    + apply literal_not_Starved.
    + apply number_not_Starved.
  - intros s Hn. rewrite elements_S.
    intros [Hv|(v & r1 & Hv & H)]%and_then_Starved.
    { revert Hv. apply IHv. lia. }
    apply Cv in Hv.
    destruct (skip_ws r1) as [|c r2] eqn:Hs; [done|].
    apply skip_ws_cons_len in Hs. repeat case_bool_decide; [|done..].
    apply and_then_Starved in H as [He|(vs' & r3 & _ & [=])].
    revert He. apply IHe. lia.
  - intros s Hn. rewrite members_S.
    destruct (strip _ (skip_ws s)) as [r0|] eqn:H0; [|done].
    apply strip_len in H0. pose proof (skip_ws_len s).
    destruct (chars r0) as [[k r1]|] eqn:H1; [|done]. apply chars_len in H1.
    destruct (strip _ (skip_ws r1)) as [r2|] eqn:H2; [|done].
    apply strip_len in H2. pose proof (skip_ws_len r1).
    intros [Hv|(v & r3 & Hv & H')]%and_then_Starved.
    { revert Hv. apply IHv. lia. }
    apply Cv in Hv.
    destruct (skip_ws r3) as [|c r4] eqn:Hs; [done|].
    apply skip_ws_cons_len in Hs. repeat case_bool_decide; [|done..].
    apply and_then_Starved in H' as [Hm|(ms' & r5 & _ & [=])].
    revert Hm. apply IHm. lia.
Qed.

(** [JSON_parse] answers [None] only for a text that is not JSON. *)
Lemma JSON_parse_not_Starved s : value (2 * String.length s + 1) s ≠ Starved.
Proof. apply read_not_Starved. lia. Qed.
End Fuel.

(** ** Examples *)
Section Examples.
Import JSON App.

Example parse_entries :
  JSON_parse (Str.text "[ {'id':'a', 'title':'x\ty','completed':true} ]")
  = Some (todos_json [ {| id := "a"; title := String "x" (String "009" "y"); completed := true |} ]).
Proof. reflexivity. Qed.

Example parse_accepts :
  JSON_parse " -12.50e+3 " = Some (JNum true 1250 1)
  ∧ JSON_parse (Str.text "'A\u00e9\u20AC\/'") = Some (JStr [65; 233; 8364; 47]%N)
  ∧ JSON_parse (Str.text "{'a':[null,true,false],'a':{}}")
    = Some (JObj [([97%N], JArr [JNull; JBool true; JBool false]); ([97%N], JObj [])]).
Proof. split_and!; reflexivity. Qed.

Example parse_rejects :
  JSON_parse EmptyString = None ∧ JSON_parse "01" = None ∧ JSON_parse "1." = None
  ∧ JSON_parse "[1,]" = None ∧ JSON_parse "nul" = None ∧ JSON_parse "[1] x" = None
  ∧ JSON_parse (Str.text "{'a' 1}") = None ∧ JSON_parse (Str.text "'\x'") = None
  ∧ JSON_parse "{id:1}" = None ∧ JSON_parse "undefined" = None.
Proof. split_and!; reflexivity. Qed.

Example falsy_numbers :
  truthy (JNum false 0 5) = false ∧ truthy (JNum true 0 0) = false
  ∧ truthy (JNum false 2 (-324)) = false ∧ truthy (JNum false 3 (-324)) = true.
Proof. split_and!; by vm_compute. Qed.

Example stringify_entry :
  JSON_stringify [ {| id := "a"; title := String "x" (String "009" "\y"); completed := true |} ]
  = Str.text "[{'id':'a','title':'x\t\\y','completed':true}]".
Proof. reflexivity. Qed.

Example trim_and_lower :
  Str.trim (String "009" "  Buy  Milk  ") = "Buy  Milk"
  ∧ Str.trim "   " = EmptyString
  ∧ Str.toLowerCase "Buy MILK 2%" = "buy milk 2%"
  ∧ Str.includes "buy milk" "y m" = true
  ∧ Str.includes "buy milk" "ym" = false.
Proof. split_and!; reflexivity. Qed.

(** Scenario B: of A (open), B (completed), C (open), the filter active with
    an empty query shows A and C. *)
Example scenario_B :
  let A := {| id := "a"; title := "A"; completed := false |} in
  let B := {| id := "b"; title := "B"; completed := true |} in
  let C := {| id := "c"; title := "C"; completed := false |} in
  shown [A; B; C] "active" EmptyString = [A; C]
  ∧ shown [A; B; C] "completed" " " = [B]
  ∧ shown [A; B; C] "all" " c " = [C]
  ∧ countBadge (start None [A; B; C]) = (1, 3).
Proof. split_and!; reflexivity. Qed.
End Examples.

(** ** What every handler keeps of the store and of the page *)
Section Sync.
Import JSON App.
Implicit Types (s : State) (e : Event) (stored : option string).

Lemma in_sync_saved s : in_sync (renderTodos (saveTodos s)).
Proof. apply loadTodos_stringify. Qed.

Lemma in_sync_handle e s : in_sync s → in_sync (handle e s).
Proof.
  intros Hs. destruct e as [input uid|i x|i x|i|f|q|x|order|]; simpl.
  - unfold onSubmit. destruct (Str.is_empty _); [done|].
    destruct (some _ _); [done|]. apply in_sync_saved.
  - unfold onChange. destruct (findIndex _ _); [apply in_sync_saved|done].
  - unfold onDelete. destruct x; [apply in_sync_saved|done].
  - unfold startEdit. by destruct (find _ _).
  - exact Hs.
  - exact Hs.
  - unfold onClear. destruct x; [apply in_sync_saved|done].
  - apply in_sync_saved.
  - apply (in_sync_saved s).
Qed.

Lemma rendered_renderTodos s : rendered (renderTodos s).
Proof. by split_and!. Qed.

Lemma rendered_handle e s : rendered s → rendered (handle e s).
Proof.
  intros Hs. destruct e as [input uid|i x|i x|i|f|q|x|order|]; simpl.
  - unfold onSubmit. destruct (Str.is_empty _); [done|].
    destruct (some _ _); [done|]. apply rendered_renderTodos.
  - unfold onChange. destruct (findIndex _ _); [apply rendered_renderTodos|done].
  - unfold onDelete. destruct x; [apply rendered_renderTodos|done].
  - unfold startEdit. by destruct (find _ _).
  - apply rendered_renderTodos.
  - apply rendered_renderTodos.
  - unfold onClear. destruct x; [apply rendered_renderTodos|done].
  - apply rendered_renderTodos.
  - exact Hs.
Qed.

(** X1: in every state the page reaches, the text under [LS_KEY] reads back
    as the current [todos]: a page started from it starts with the same
    entries in the same order. *)
Theorem reload_restores_current_list stored s :
  reachable stored s →
  loadTodos (localStorage s) = todos_json (todos s)
  ∧ reachable (localStorage s) (start (localStorage s) (todos s))
  ∧ todos (start (localStorage s) (todos s)) = todos s.
Proof.
  intros Hr. assert (in_sync s) as Hs.
  { induction Hr as [c Hc|s e Hr IH Hp]; [exact Hc|by apply in_sync_handle]. }
  split_and!; [exact Hs|by constructor|reflexivity].
Qed.

Lemma reload_restores_current_list_witness :
  let s := run [Submit "Walk" "k1"; Submit " Buy milk" "k2"; Change "k1" true;
                FilterClick "active"; Delete "k2" true] (start None []) in
  reachable None s
  ∧ todos s = [ {| id := "k1"; title := "Walk"; completed := true |} ]
  ∧ loadTodos (localStorage s) = todos_json (todos s).
Proof.
  intros s.
  assert (reachable None s) as Hr.
  { repeat (apply reach_step); [by constructor|..]; simpl; try done.
    - split; [done|]. apply not_elem_of_nil.
    - split; [done|]. by apply (bool_decide_unpack _). }
  split_and!; [exact Hr|reflexivity|].
  exact (proj1 (reload_restores_current_list None s Hr)).
Defined.

(** X2: in every state the page reaches, the rows are the projection of the
    current [todos] under the current filter and query, the empty note is
    displayed exactly when there is no row, and the badge counts the
    completed entries and all entries of [todos], whatever the filter and
    the query. *)
Theorem page_shows_current_state stored s :
  reachable stored s →
  todoListEl s = shown (todos s) (filter s) (searchQuery s)
  ∧ (emptyNote s = true ↔ todoListEl s = [])
  ∧ countBadge s
    = (length (shown (todos s) "completed" EmptyString), length (todos s))
  ∧ (countBadge s).1 ≤ (countBadge s).2.
Proof.
  intros Hr. assert (rendered s) as (Hrows & Hnote & Hbadge).
  { induction Hr as [c Hc|s e Hr IH Hp]; [apply rendered_renderTodos|].
    by apply rendered_handle. }
  split_and!; [exact Hrows| |exact Hbadge|].
  - rewrite Hnote, bool_decide_eq_true. by destruct (todoListEl s).
  - rewrite Hbadge. simpl. apply sublist_length, sublist_filter; apply _.
Qed.

Lemma page_shows_current_state_witness :
  let s := run [Submit "Walk" "k1"; Submit " Buy milk" "k2"; Change "k1" true;
                FilterClick "active"] (start None []) in
  reachable None s
  ∧ todoListEl s = [ {| id := "k2"; title := "Buy milk"; completed := false |} ]
  ∧ countBadge s = (1, 2)
  ∧ todoListEl s = shown (todos s) (filter s) (searchQuery s).
Proof.
  intros s.
  assert (reachable None s) as Hr.
  { repeat (apply reach_step); [by constructor|..]; simpl; try done.
    - split; [done|]. apply not_elem_of_nil.
    - split; [done|]. by apply (bool_decide_unpack _). }
  split_and!; [exact Hr|reflexivity|reflexivity|].
  exact (proj1 (page_shows_current_state None s Hr)).
Defined.
End Sync.

(** ** Deleting, and undoing *)
Section Undo.
Import JSON App.
Implicit Types (c : list Item) (s : State) (i : string) (t : Item).

Lemma filter_absent c i : i ∉ id <$> c → base.filter (λ t, id t ≠ i) c = c.
Proof.
  induction c as [|t c IH]; [done|].
  rewrite fmap_cons, not_elem_of_cons. intros [Hne Hi].
  rewrite filter_cons_True by done. f_equal. by apply IH.
Qed.

Lemma filter_one_out c i :
  NoDup (id <$> c) → i ∈ id <$> c →
  length (base.filter (λ t, id t ≠ i) c) + 1 = length c.
Proof.
  induction c as [|t c IH]; [by intros _ ?%elem_of_nil|].
  rewrite fmap_cons, NoDup_cons. intros [Hnot Hnd] Hin.
  destruct (decide (id t = i)) as [<-|Hne].
  - rewrite filter_cons_False by (by intros ?). rewrite filter_absent by done.
    simpl. lia.
  - rewrite filter_cons_True by done. simpl.
    apply elem_of_cons in Hin as [?|Hin]; [congruence|].
    rewrite <- (IH Hnd Hin). lia.
Qed.

(** X3: a confirmed delete keeps exactly the entries with another id, in
    their order, and writes the result to localStorage; with distinct ids and
    the id present the list gets one shorter; an id that no entry carries
    leaves the list as it was, and so does a delete that is not confirmed. *)
Theorem delete_removes_that_entry s i :
  todos (onDelete i true s) `sublist_of` todos s
  ∧ (i ∉ id <$> todos (onDelete i true s))
  ∧ (∀ t, t ∈ todos (onDelete i true s) ↔ t ∈ todos s ∧ id t ≠ i)
  ∧ (NoDup (id <$> todos s) → i ∈ id <$> todos s →
     length (todos (onDelete i true s)) + 1 = length (todos s))
  ∧ (i ∉ id <$> todos s → todos (onDelete i true s) = todos s)
  ∧ localStorage (onDelete i true s) = Some (JSON_stringify (todos (onDelete i true s)))
  ∧ onDelete i false s = s.
Proof.
  simpl. split_and!; [| | | | |done..].
  - apply sublist_filter; apply _.
  - intros (t & Hid & Ht)%list_elem_of_fmap.
    apply list_elem_of_filter in Ht as [Hne _]. congruence.
  - intros t. rewrite list_elem_of_filter. tauto.
  - apply filter_one_out.
  - apply filter_absent.
Qed.

Lemma delete_removes_that_entry_witness :
  let A := {| id := "a"; title := "A"; completed := false |} in
  let B := {| id := "b"; title := "B"; completed := true |} in
  let C := {| id := "c"; title := "C"; completed := false |} in
  todos (onDelete "b" true (start None [A; B; C])) = [A; C]
  ∧ length (todos (onDelete "b" true (start None [A; B; C]))) + 1 = 3.
Proof.
  intros A B C. split; [reflexivity|].
  destruct (delete_removes_that_entry (start None [A; B; C]) "b") as (_ & _ & _ & H & _).
  apply H; by apply (bool_decide_unpack _).
Defined.

(** X4: an entry that the form has just added is taken away again by the
    delete button of its row: when no entry is being edited, the input is
    accepted and the new id is carried by no entry, add followed by delete
    leaves [todos] as it was. *)
Theorem add_then_delete_restores s input uid :
  editingId s = None → uid ∉ id <$> todos s →
  snd (onSubmit input uid s) = None →
  todos (onDelete uid true (fst (onSubmit input uid s))) = todos s.
Proof.
  intros He Hfresh Hok. unfold onSubmit in *.
  destruct (Str.is_empty _); [done|]. destruct (some _ _); [done|].
  rewrite He. simpl. rewrite filter_cons_False by (by intros ?).
  by apply filter_absent.
Qed.

Lemma add_then_delete_restores_witness :
  let A := {| id := "a"; title := "Walk"; completed := false |} in
  let s := start None [A] in
  editingId s = None ∧ ("k" ∉ id <$> todos s)
  ∧ snd (onSubmit " Buy milk" "k" s) = None
  ∧ length (todos (fst (onSubmit " Buy milk" "k" s))) = 2
  ∧ todos (onDelete "k" true (fst (onSubmit " Buy milk" "k" s))) = [A].
Proof.
  intros A s.
  assert ("k" ∉ id <$> todos s) as Hk by (by apply (bool_decide_unpack _)).
  split_and!; [reflexivity|exact Hk|reflexivity|reflexivity|].
  exact (add_then_delete_restores s " Buy milk" "k" eq_refl Hk eq_refl).
Defined.

Lemma findIndex_by_ids c c' i :
  id <$> c = id <$> c' →
  findIndex (λ t, id t = i) c = findIndex (λ t, id t = i) c'.
Proof.
  revert c'. induction c as [|t c IH]; intros [|u c'] H; simplify_eq/=; [done|].
  unfold findIndex in *. simpl.
  assert (id u = id t) as Hu by congruence. rewrite Hu.
  destruct (decide (id t = i)); [done|].
  specialize (IH c' ltac:(done)).
  destruct (list_find _ c) as [[]|], (list_find _ c') as [[]|]; by simplify_eq/=.
Qed.

(** X5: with distinct ids, the change handler run a second time with the
    value the entry had puts [todos] back: checking a box and unchecking it
    changes nothing. *)
Theorem toggle_back_restores s t (checked : bool) :
  NoDup (id <$> todos s) → t ∈ todos s →
  todos (onChange (id t) (completed t) (onChange (id t) checked s)) = todos s.
Proof.
  intros Hnd Ht.
  destruct (findIndex_is_Some (λ u, id u = id t) (todos s) t Ht eq_refl) as [idx Hidx].
  destruct (findIndex_Some _ _ _ Hidx) as (u & Hu & Hid).
  assert (u = t) as ->.
  { eapply (fmap_inj_on id); [exact Hnd|by eapply list_elem_of_lookup_2|done..]. }
  unfold onChange at 2. rewrite Hidx. unfold onChange. simpl.
  rewrite (findIndex_by_ids _ (todos s)) by (by apply alter_keeps_ids).
  rewrite Hidx. simpl. rewrite list_alter_alter_eq.
  apply (alter_same _ _ _ t Hu). by destruct t.
Qed.

Lemma toggle_back_restores_witness :
  let A := {| id := "a"; title := "A"; completed := false |} in
  let B := {| id := "b"; title := "B"; completed := true |} in
  let s := start None [A; B] in
  NoDup (id <$> todos s) ∧ B ∈ todos s
  ∧ todos (onChange "b" false s) = [A; {| id := "b"; title := "B"; completed := false |}]
  ∧ todos (onChange "b" true (onChange "b" false s)) = [A; B].
Proof.
  intros A B s.
  assert (NoDup (id <$> todos s)) as Hnd by (by apply (bool_decide_unpack _)).
  assert (B ∈ todos s) as HB by (right; left).
  split_and!; [exact Hnd|exact HB|reflexivity|].
  exact (toggle_back_restores s B false Hnd HB).
Defined.
End Undo.

(** ** Edit mode *)
Section EditMode.
Import JSON App.
Implicit Types (c : list Item) (s : State) (e i : string) (t : Item).

Lemma submit_for_missing_entry s e input uid :
  editingId s = Some e → e ≠ EmptyString → e ∉ id <$> todos s →
  todos (fst (onSubmit input uid s)) = todos s
  ∧ editingId (fst (onSubmit input uid s)) = Some e.
Proof.
  intros He Hne Hi. unfold onSubmit.
  destruct (Str.is_empty _); [done|]. destruct (some _ _); [done|].
  rewrite He. simpl. apply is_empty_false in Hne as ->. simpl.
  destruct (findIndex _ _) as [idx|] eqn:Hf; [|done].
  apply findIndex_Some in Hf as (t & Ht & Hid). destruct Hi. simplify_eq.
  apply list_elem_of_fmap_2. by eapply list_elem_of_lookup_2.
Qed.

(** X6: while [editingId] names an id that no entry carries (the entry was
    deleted, or the list cleared, after its edit button was clicked), the
    form neither adds nor edits: whatever is submitted, and however often,
    [todos] and [editingId] stay as they are. *)
Theorem form_is_inert_after_edited_entry_is_gone s e (inputs : list (string * string)) :
  editingId s = Some e → e ≠ EmptyString → e ∉ id <$> todos s →
  todos (run ((λ p, Submit p.1 p.2) <$> inputs) s) = todos s
  ∧ editingId (run ((λ p, Submit p.1 p.2) <$> inputs) s) = Some e.
Proof.
  revert s. induction inputs as [|[input uid] inputs IH]; intros s He Hne Hi; [done|].
  destruct (submit_for_missing_entry s e input uid He Hne Hi) as [Ht He'].
  rewrite fmap_cons. unfold run in *. simpl.
  destruct (IH (fst (onSubmit input uid s))) as [IH1 IH2]; [done..|by rewrite Ht|].
  by rewrite IH1, IH2.
Qed.

Lemma form_is_inert_after_edited_entry_is_gone_witness :
  let s := run [Submit "Walk" "k1"; EditClick "k1"; Delete "k1" true] (start None []) in
  reachable None s
  ∧ editingId s = Some "k1" ∧ "k1" ≠ EmptyString ∧ ("k1" ∉ id <$> todos s)
  ∧ todos (run [Submit "Buy milk" "k2"; Submit "Read" "k3"] s) = [].
Proof.
  intros s.
  assert (reachable None s) as Hr.
  { repeat (apply reach_step); [by constructor|..]; simpl; try done.
    split; [done|]. apply not_elem_of_nil. }
  assert ("k1" ∉ id <$> todos s) as Hk by apply not_elem_of_nil.
  split_and!; [exact Hr|reflexivity|done|exact Hk|].
  exact (proj1 (form_is_inert_after_edited_entry_is_gone s "k1"
                  [("Buy milk", "k2"); ("Read", "k3")] eq_refl ltac:(done) Hk)).
Defined.

(** X7: clicking the edit button of a row and submitting an accepted title
    renames that entry where it stands and ends edit mode, so that the next
    accepted submit adds an entry at the front. *)
Theorem edit_then_add s t input input' uid uid' :
  NoDup (id <$> todos s) → t ∈ todos s → id t ≠ EmptyString →
  snd (onSubmit input uid (startEdit (id t) s)) = None →
  snd (onSubmit input' uid' (fst (onSubmit input uid (startEdit (id t) s)))) = None →
  ∃ k, todos s !! k = Some t
       ∧ todos (fst (onSubmit input uid (startEdit (id t) s)))
         = <[k := with_title (Str.trim input) t]> (todos s)
       ∧ editingId (fst (onSubmit input uid (startEdit (id t) s))) = None
       ∧ todos (fst (onSubmit input' uid'
                       (fst (onSubmit input uid (startEdit (id t) s)))))
         = {| id := uid'; title := Str.trim input'; completed := false |}
           :: <[k := with_title (Str.trim input) t]> (todos s).
Proof.
  intros Hnd Ht Hne Hok Hok'.
  assert (startEdit (id t) s = set_editingId (Some (id t)) s) as Hst.
  { unfold startEdit. by rewrite (find_unique _ _ Hnd Ht). }
  rewrite Hst in *.
  destruct (findIndex_is_Some (λ u, Some (id u) = Some (id t)) (todos s) t Ht eq_refl)
    as [k Hk].
  destruct (findIndex_Some _ _ _ Hk) as (u & Hu & Hid).
  assert (u = t) as ->.
  { eapply (fmap_inj_on id); [exact Hnd|by eapply list_elem_of_lookup_2|done|congruence]. }
  assert (fst (onSubmit input uid (set_editingId (Some (id t)) s))
          = renderTodos (saveTodos (set_editingId None
              (set_todos (alter (with_title (Str.trim input)) k (todos s)) s)))) as H1.
  { revert Hok. unfold onSubmit. simpl.
    destruct (Str.is_empty (Str.trim input)); [done|]. destruct (some _ _); [done|].
    intros _. apply is_empty_false in Hne as ->. simpl. by rewrite Hk. }
  rewrite H1 in *. exists k. rewrite (alter_insert _ _ _ t Hu) in *.
  split_and!; [done..|].
  revert Hok'. unfold onSubmit. simpl.
  destruct (Str.is_empty (Str.trim input')); [done|]. by destruct (some _ _).
Qed.

Lemma edit_then_add_witness :
  let A := {| id := "a"; title := "Walk"; completed := true |} in
  let B := {| id := "b"; title := "Read"; completed := false |} in
  let s := start None [A; B] in
  NoDup (id <$> todos s) ∧ B ∈ todos s ∧ id B ≠ EmptyString
  ∧ todos (fst (onSubmit "Cook" "k"
                  (fst (onSubmit " Read more " "k0" (startEdit "b" s)))))
    = [ {| id := "k"; title := "Cook"; completed := false |}; A;
        {| id := "b"; title := "Read more"; completed := false |} ].
Proof.
  intros A B s.
  assert (NoDup (id <$> todos s)) as Hnd by (by apply (bool_decide_unpack _)).
  assert (B ∈ todos s) as HB by (right; left).
  split_and!; [exact Hnd|exact HB|done|].
  destruct (edit_then_add s B " Read more " "Cook" "k0" "k" Hnd HB ltac:(done)
              eq_refl eq_refl) as (k & Hk & _ & _ & H).
  etrans; [exact H|]. assert (k = 1) as ->; [|reflexivity].
  eapply NoDup_lookup; [exact Hnd| |]; rewrite list_lookup_fmap; [by rewrite Hk|done].
Defined.

(** X8: from a well-formed start, in every state the page reaches the ids
    are distinct and non-empty and every title is stored trimmed and is not
    empty: the form never stores a blank title or one with white space
    around it. *)
Theorem ids_and_titles_stay_well_formed stored s :
  (∀ l, loadTodos stored = todos_json l → well_formed l) →
  reachable stored s →
  NoDup (id <$> todos s)
  ∧ Forall (λ t, id t ≠ EmptyString) (todos s)
  ∧ Forall (λ t, Str.trim (title t) = title t ∧ title t ≠ EmptyString) (todos s).
Proof.
  intros Hl Hr.
  destruct (consistent_reachable stored s Hl Hr) as [[H1 H2 H3 _ H5] _].
  split_and!; [done..|].
  unfold I2 in H5. rewrite Forall_forall in *. intros t Ht. split; [by apply H3|].
  rewrite <- (H3 t Ht). by apply H5.
Qed.

Lemma ids_and_titles_stay_well_formed_witness :
  let s := run [Submit "  Walk " "k1"; Submit "   " "k2"; Submit "Read" "k3";
                EditClick "k1"; Submit " Run  " "k4"] (start None []) in
  (∀ l, loadTodos None = todos_json l → well_formed l)
  ∧ reachable None s
  ∧ title <$> todos s = ["Read"; "Run"]
  ∧ NoDup (id <$> todos s).
Proof.
  intros s.
  assert (∀ l, loadTodos None = todos_json l → well_formed l) as Hl.
  { intros l Hl. apply (todos_json_inj []) in Hl as <-. apply well_formed_nil. }
  assert (reachable None s) as Hr.
  { repeat (apply reach_step); [by constructor|..]; simpl; try done;
      (split; [done|]); by apply (bool_decide_unpack _). }
  split_and!; [exact Hl|exact Hr|reflexivity|].
  exact (proj1 (ids_and_titles_stay_well_formed None s Hl Hr)).
Defined.
End EditMode.

(** ** More on the rows *)
Section Rows.
Import JSON App.
Implicit Types (c : list Item) (f q : string) (t : Item).

Lemma toLowerCase_is_empty (v : string) :
  Str.is_empty (Str.toLowerCase v) = Str.is_empty v.
Proof. by destruct v. Qed.

Lemma shown_elem_of c f q t :
  t ∈ shown c f q ↔
  t ∈ c
  ∧ (f = "active" → completed t = false)
  ∧ (f = "completed" → completed t = true)
  ∧ (Str.trim q ≠ EmptyString →
     Str.includes (Str.toLowerCase (title t)) (Str.toLowerCase (Str.trim q)) = true).
Proof.
  unfold shown.
  destruct (Str.is_empty (Str.trim q)) eqn:Hq; simpl.
  - apply is_empty_true in Hq.
    repeat case_bool_decide; subst; try done;
      rewrite ?list_elem_of_filter; destruct (completed t); simpl; intuition congruence.
  - apply is_empty_false in Hq.
    repeat case_bool_decide; subst; try done;
      rewrite ?list_elem_of_filter;
      destruct (completed t), (Str.includes _ _); simpl; intuition congruence.
Qed.

Lemma startsWith_spec (q v : string) :
  Str.startsWith q v = true ↔ ∃ b, v = q +:+ b.
Proof.
  revert v. induction q as [|a q IH]; intros v; simpl.
  - split; [by exists v|done].
  - destruct v as [|a' v]; [split; [done|by intros [b ?]]|].
    rewrite andb_true_iff, bool_decide_eq_true, IH. split.
    + intros [-> [b ->]]. by exists b.
    + intros [b H]. rewrite append_cons in H. injection H as -> ->. eauto.
Qed.

Lemma includes_spec (v q : string) :
  Str.includes v q = true ↔ ∃ a b, v = a +:+ q +:+ b.
Proof.
  split.
  - induction v as [|x v IH]; simpl; rewrite orb_true_iff.
    + intros [[b H]%startsWith_spec|?]; [|done]. by exists EmptyString, b.
    + intros [[b H]%startsWith_spec|H]; [by exists EmptyString, b|].
      destruct (IH H) as (a & b & ->). by exists (String x a), b.
  - intros (a & b & ->). induction a as [|x a IH].
    + rewrite append_nil. destruct (q +:+ b) eqn:E; simpl; rewrite orb_true_iff; left;
        apply startsWith_spec; by exists b.
    + rewrite append_cons. simpl. by rewrite IH, orb_true_r.
Qed.

(** X9: an entry gets a row exactly when it is in [todos], it is open under
    the filter active and completed under the filter completed (any other
    filter value lets every entry through), and, when the trimmed query is
    not empty, the lower-cased trimmed query occurs in its lower-cased
    title as a run of consecutive characters. *)
Theorem row_iff c f q t :
  t ∈ shown c f q ↔
  t ∈ c
  ∧ (f = "active" → completed t = false)
  ∧ (f = "completed" → completed t = true)
  ∧ (Str.trim q ≠ EmptyString →
     ∃ a b, Str.toLowerCase (title t) = a +:+ Str.toLowerCase (Str.trim q) +:+ b).
Proof. rewrite shown_elem_of. by setoid_rewrite includes_spec. Qed.

Lemma filter_completed_split (l : list Item) :
  base.filter (λ t, negb (completed t)) l ++ base.filter (λ t, completed t) l ≡ₚ l.
Proof.
  rewrite (list_filter_iff (λ t : Item, negb (completed t)) (λ t, ¬ completed t)).
  - etrans; [apply Permutation_app_comm|]. apply filter_app_complement.
  - intros t. destruct (completed t); simpl; tauto.
Qed.

(** X10: under one query, the rows of the filter active and the rows of the
    filter completed together are the rows of the filter all, each once; a
    filter value that is neither active nor completed shows what all
    shows. *)
Theorem active_and_completed_rows_partition c q :
  shown c "active" q ++ shown c "completed" q ≡ₚ shown c "all" q
  ∧ length (shown c "active" q) + length (shown c "completed" q)
    = length (shown c "all" q)
  ∧ (∀ t, t ∈ shown c "active" q → t ∈ shown c "completed" q → False)
  ∧ (∀ f, f ≠ "active" → f ≠ "completed" → shown c f q = shown c "all" q).
Proof.
  assert (shown c "active" q ++ shown c "completed" q ≡ₚ shown c "all" q) as Hp.
  { unfold shown. simpl. destruct (negb _).
    - by rewrite <- filter_app, filter_completed_split.
    - apply filter_completed_split. }
  split_and!; [exact Hp| | |].
  - by rewrite <- Hp, length_app.
  - intros t (_ & H1 & _)%shown_elem_of (_ & _ & H2 & _)%shown_elem_of.
    specialize (H1 eq_refl). specialize (H2 eq_refl). congruence.
  - intros f H1 H2. unfold shown. simpl. by rewrite !bool_decide_eq_false_2.
Qed.

(** X11: the search box is read trimmed and without regard to case: two
    queries with the same trimmed, lower-cased form give the same rows, and
    a query of white space only gives the rows of the empty query. *)
Theorem query_is_trimmed_and_lowercased c f :
  (∀ q q', normalized q = normalized q' → shown c f q = shown c f q')
  ∧ (∀ q, Str.trim q = EmptyString → shown c f q = shown c f EmptyString).
Proof.
  split.
  - intros q q' Hn. unfold normalized in Hn. unfold shown.
    rewrite <- (toLowerCase_is_empty (Str.trim q)).
    rewrite <- (toLowerCase_is_empty (Str.trim q')). by rewrite Hn.
  - intros q Hq. unfold shown. by rewrite Hq.
Qed.
End Rows.

(** ** More on the merge after a drag *)
Section Drag.
Import JSON App.
Implicit Types (c l : list Item) (order : list string) (t : Item).

Lemma filter_ext_in {A} (P Q : A → Prop) `{∀ x, Decision (P x)} `{∀ x, Decision (Q x)}
    (l : list A) :
  (∀ x, x ∈ l → P x ↔ Q x) → base.filter P l = base.filter Q l.
Proof.
  induction l as [|x l IH]; intros HPQ; [done|].
  assert (base.filter P l = base.filter Q l) as IH'.
  { apply IH. intros y Hy. apply HPQ. by right. }
  destruct (decide (P x)) as [HP|HP].
  - rewrite !filter_cons_True; [by rewrite IH'|by apply HPQ; [left|]|done].
  - rewrite !filter_cons_False; [done| |done]. intros HQ. apply HP, HPQ; [by left|done].
Qed.

Lemma filter_none {A} (P : A → Prop) `{∀ x, Decision (P x)} (l : list A) :
  (∀ x, x ∈ l → ¬ P x) → base.filter P l = [].
Proof.
  induction l as [|x l IH]; intros HP; [done|].
  rewrite filter_cons_False by (apply HP; by left). apply IH.
  intros y Hy. apply HP. by right.
Qed.

Lemma filter_all {A} (P : A → Prop) `{∀ x, Decision (P x)} (l : list A) :
  (∀ x, x ∈ l → P x) → base.filter P l = l.
Proof.
  induction l as [|x l IH]; intros HP; [done|].
  rewrite filter_cons_True by (apply HP; by left). f_equal. apply IH.
  intros y Hy. apply HP. by right.
Qed.

Lemma lookups_of_ids c l :
  NoDup (id <$> c) → (∀ t, t ∈ l → t ∈ c) → lookups c (id <$> l) = l.
Proof.
  intros Hnd. unfold lookups. induction l as [|t l IH]; intros Hin; [done|].
  csimpl. rewrite (find_unique c t Hnd) by (apply Hin; by left). csimpl.
  f_equal. apply IH. intros u Hu. apply Hin. by right.
Qed.

(** X12: with distinct ids, a drag that ends with the rows in the order
    they had still rebuilds [todos]: the rows come first and the entries
    without a row follow, so under a filter or a query the hidden entries
    move behind the shown ones; when every entry has a row, [todos] is
    unchanged. *)
Theorem drag_without_move c f q :
  NoDup (id <$> c) →
  reconcile c (id <$> shown c f q)
  = shown c f q ++ base.filter (λ t, id t ∉ id <$> shown c f q) c
  ∧ (∀ t, t ∈ base.filter (λ t, id t ∉ id <$> shown c f q) c
          ↔ t ∈ c ∧ t ∉ shown c f q)
  ∧ reconcile c (id <$> c) = c
  ∧ (shown c f q = c → reconcile c (id <$> shown c f q) = c).
Proof.
  intros Hnd.
  pose proof (shown_sublist c f q) as Hsub.
  assert (∀ l, l `sublist_of` c →
               reconcile c (id <$> l) = l ++ base.filter (λ t, id t ∉ id <$> l) c) as Hgen.
  { intros l Hl. rewrite reconcile_eq.
    by rewrite lookups_of_ids by (done || intros t Ht; by eapply elem_of_sublist). }
  assert (reconcile c (id <$> c) = c) as Hall.
  { rewrite (Hgen c) by done. rewrite filter_none; [apply app_nil_r|].
    intros t Ht Hn. apply Hn. by apply list_elem_of_fmap_2. }
  split_and!; [by apply Hgen| |exact Hall|by intros ->].
  intros t. rewrite list_elem_of_filter. split.
  - intros [Hn Ht]. split; [done|]. intros Hin. apply Hn. by apply list_elem_of_fmap_2.
  - intros [Ht Hn]. split; [|done]. intros (u & Hid & Hu)%list_elem_of_fmap. apply Hn.
    assert (t = u) as ->; [|done].
    eapply same_id_same_entry; [exact Hnd|done| |done]. by eapply elem_of_sublist.
Qed.

Lemma drag_without_move_witness :
  let A := {| id := "a"; title := "A"; completed := true |} in
  let B := {| id := "b"; title := "B"; completed := false |} in
  let C := {| id := "c"; title := "C"; completed := true |} in
  NoDup (id <$> [A; B; C])
  ∧ shown [A; B; C] "active" EmptyString = [B]
  ∧ reconcile [A; B; C] (id <$> shown [A; B; C] "active" EmptyString) = [B; A; C].
Proof.
  intros A B C.
  assert (NoDup (id <$> [A; B; C])) as Hnd by (by apply (bool_decide_unpack _)).
  split_and!; [exact Hnd|reflexivity|].
  etrans; [exact (proj1 (drag_without_move [A; B; C] "active" EmptyString Hnd))|].
  by vm_compute.
Defined.

Lemma lookups_known c order :
  lookups c order = lookups c (base.filter (λ i, i ∈ id <$> c) order).
Proof.
  unfold lookups. induction order as [|i order IH]; [done|].
  destruct (decide (i ∈ id <$> c)) as [Hi|Hi].
  - rewrite filter_cons_True by done. csimpl. by rewrite IH.
  - rewrite filter_cons_False by done. csimpl.
    destruct (find _ c) as [t|] eqn:Hf; [|done].
    apply find_Some in Hf as [Ht <-]. destruct Hi. by apply list_elem_of_fmap_2.
Qed.

Lemma lookups_Permutation c c' order :
  NoDup (id <$> c) → c' ≡ₚ c → lookups c' order = lookups c order.
Proof.
  intros Hnd Hp. unfold lookups. apply list_omap_ext, Forall2_same_length_lookup.
  split; [done|]. intros k i j Hi Hj. simplify_eq.
  assert (NoDup (id <$> c')) as Hnd' by by rewrite Hp.
  destruct (find (λ x, id x = i) c) as [t|] eqn:Hf.
  - apply find_Some in Hf as [Ht <-]. apply find_unique; [done|by rewrite Hp].
  - apply find_None in Hf. destruct (find _ c') as [t|] eqn:Hf'; [|done].
    apply find_Some in Hf' as [Ht <-]. destruct Hf.
    apply list_elem_of_fmap_2. by rewrite <- Hp.
Qed.

(** X13: the merge at its edges.  With no row, [todos] is unchanged; ids
    that no entry carries are passed over; and with distinct ids and a row
    order without repetition, merging the same order a second time changes
    nothing. *)
Theorem merge_edge_cases c order :
  reconcile c [] = c
  ∧ reconcile c order = reconcile c (base.filter (λ i, i ∈ id <$> c) order)
  ∧ (NoDup (id <$> c) → NoDup order →
     reconcile (reconcile c order) order = reconcile c order).
Proof.
  assert (reconcile c order
          = reconcile c (base.filter (λ i, i ∈ id <$> c) order)) as Hknown.
  { rewrite !reconcile_eq, <- lookups_known. f_equal.
    apply filter_ext_in. intros t Ht. rewrite list_elem_of_filter.
    pose proof (list_elem_of_fmap_2 id _ _ Ht). tauto. }
  split_and!; [|exact Hknown|].
  - rewrite reconcile_eq. simpl. apply filter_all. intros t _. apply not_elem_of_nil.
  - intros Hnd Ho.
    set (known := base.filter (λ i, i ∈ id <$> c) order).
    assert (reconcile c order ≡ₚ c) as Hp.
    { rewrite Hknown. apply reconcile_Permutation; [done|by apply NoDup_filter|].
      intros i Hi. by apply list_elem_of_filter in Hi as [? _]. }
    rewrite (reconcile_eq (reconcile c order)).
    rewrite (lookups_Permutation c) by done.
    rewrite (reconcile_eq c order) at 2. f_equal.
    rewrite reconcile_eq, filter_app.
    rewrite (filter_none _ (lookups c order)), (filter_all _ (base.filter _ c)); [done| |].
    + intros t Ht. by apply list_elem_of_filter in Ht as [? _].
    + intros t Ht Hn. apply Hn.
      apply list_elem_of_omap in Ht as (i & Hi & Hf). by apply find_Some in Hf as [_ <-].
Qed.

Lemma merge_edge_cases_witness :
  let A := {| id := "a"; title := "A"; completed := true |} in
  let B := {| id := "b"; title := "B"; completed := false |} in
  let C := {| id := "c"; title := "C"; completed := true |} in
  reconcile [A; B; C] ["c"; "zz"; "a"] = [C; A; B]
  ∧ reconcile (reconcile [A; B; C] ["c"; "zz"; "a"]) ["c"; "zz"; "a"] = [C; A; B].
Proof.
  intros A B C.
  assert (reconcile [A; B; C] ["c"; "zz"; "a"] = [C; A; B]) as H by (by vm_compute).
  split; [exact H|].
  destruct (merge_edge_cases [A; B; C] ["c"; "zz"; "a"]) as (_ & _ & Hi).
  rewrite Hi; [exact H|by apply (bool_decide_unpack _)..].
Defined.
End Drag.

(** ** uid *)
Section Uid.
Import JSON App.
Implicit Types (n acc : N) (fuel : nat) (a b r : string).

Lemma to36_acc fuel n acc_s :
  to36 fuel n acc_s = to36 fuel n EmptyString +:+ acc_s.
Proof.
  revert n acc_s. induction fuel as [|fuel IH]; intros n acc_s; [done|].
  simpl. destruct (n / 36 =? 0)%N; [done|].
  rewrite (IH _ (String _ acc_s)), (IH _ (String _ EmptyString)).
  by rewrite append_assoc.
Qed.

Lemma of36_app a b acc : of36 (a +:+ b) acc = of36 b (of36 a acc).
Proof.
  revert acc. induction a as [|c a IH]; intros acc; [done|].
  rewrite append_cons. simpl. apply IH.
Qed.

Lemma val36_digit36 (d : N) : (d < 36)%N → val36 (digit36 d) = d.
Proof.
  intros Hd. unfold val36, digit36, Str.code, Str.between.
  destruct (d <? 10)%N eqn:H10.
  - apply N.ltb_lt in H10. rewrite N_ascii_embedding by lia.
    assert ((48 <=? d + 48)%N = true) as -> by (apply N.leb_le; lia).
    assert ((d + 48 <=? 57)%N = true) as -> by (apply N.leb_le; lia).
    simpl. lia.
  - apply N.ltb_ge in H10. rewrite N_ascii_embedding by lia.
    assert ((d + 87 <=? 57)%N = false) as -> by (apply N.leb_gt; lia).
    rewrite andb_false_r. lia.
Qed.

Lemma of36_to36 fuel n :
  (n < 2 ^ N.of_nat fuel)%N → 0 < fuel → of36 (to36 fuel n EmptyString) 0 = n.
Proof.
  revert n. induction fuel as [|fuel IH]; intros n Hn Hf; [lia|].
  simpl. pose proof (N.mod_lt n 36 ltac:(done)) as Hm.
  pose proof (N.div_mod n 36 ltac:(done)) as Hdm.
  pose proof (N.le_0_l (n / 36)) as Hq0. pose proof (N.le_0_l (n mod 36)) as Hm0.
  destruct (n / 36 =? 0)%N eqn:Hq.
  - apply N.eqb_eq in Hq. simpl. rewrite val36_digit36 by done. lia.
  - apply N.eqb_neq in Hq. rewrite to36_acc, of36_app. simpl.
    rewrite val36_digit36 by done.
    assert (2 ^ N.of_nat (S fuel) = 2 * 2 ^ N.of_nat fuel)%N as Hp.
    { rewrite Nat2N.inj_succ. apply N.pow_succ_r'. }
    rewrite Hp in Hn. destruct fuel as [|fuel].
    { change (2 ^ N.of_nat 0)%N with 1%N in Hn. destruct Hq. apply N.div_small. lia. }
    rewrite IH; [lia| |lia]. lia.
Qed.

Lemma of36_toString36 n : of36 (toString36 (Z.of_N n)) 0 = n.
Proof.
  unfold toString36. rewrite Zabs2N.id.
  assert ((Z.of_N n <? 0)%Z = false) as -> by (apply Z.ltb_ge; lia).
  apply of36_to36; [|lia].
  rewrite Nat2N.inj_succ, N2Nat.id.
  destruct (decide (n = 0%N)) as [->|Hn]; [done|].
  apply N.log2_spec. lia.
Qed.

Lemma append_same_length a a' b b' :
  a +:+ b = a' +:+ b' → String.length a = String.length a' → a = a'.
Proof.
  revert a'. induction a as [|c a IH]; intros [|c' a'] H Hl; simpl in Hl; try done.
  rewrite !append_cons in H. injection H as -> H. f_equal.
  apply IH; [exact H|congruence].
Qed.

Lemma to36_nonempty fuel n : to36 (S fuel) n EmptyString ≠ EmptyString.
Proof.
  simpl. destruct (n / 36 =? 0)%N; [done|]. rewrite to36_acc.
  by destruct (to36 fuel (n / 36) EmptyString).
Qed.

Lemma length_to36 (k : nat) fuel n acc_s :
  (n < 36 ^ N.of_nat (S k))%N → (k = 0 ∨ (36 ^ N.of_nat k ≤ n)%N) → k < fuel →
  String.length (to36 fuel n acc_s) = S k + String.length acc_s.
Proof.
  revert fuel n acc_s. induction k as [|k IH]; intros fuel n acc_s Hlt Hge Hf;
    (destruct fuel as [|fuel]; [lia|]); simpl.
  - assert (n / 36 = 0)%N as -> by (apply N.div_small; exact Hlt). done.
  - destruct Hge as [?|Hge]; [done|].
    rewrite Nat2N.inj_succ, N.pow_succ_r' in Hge, Hlt.
    assert (36 ^ N.of_nat k ≤ n / 36)%N as Hq.
    { apply N.div_le_lower_bound; [done|]. exact Hge. }
    assert (n / 36 < 36 ^ N.of_nat (S k))%N as Hq'.
    { apply N.Div0.div_lt_upper_bound. exact Hlt. }
    assert (0 < 36 ^ N.of_nat k)%N as Hpos by (apply N.neq_0_lt_0, N.pow_nonzero; done).
    assert ((n / 36 =? 0)%N = false) as -> by (apply N.eqb_neq; lia).
    rewrite IH; [simpl; lia|exact Hq'|by right|lia].
Qed.

Lemma length_toString36 n :
  (36 ^ 7 ≤ n < 36 ^ 8)%N → String.length (toString36 (Z.of_N n)) = 8.
Proof.
  intros [Hlo Hhi]. unfold toString36. rewrite Zabs2N.id.
  assert ((Z.of_N n <? 0)%Z = false) as -> by (apply Z.ltb_ge; lia).
  rewrite (length_to36 7); [done|exact Hhi|by right|].
  pose proof (N.log2_le_mono _ _ Hlo) as Hl.
  change (N.log2 (36 ^ 7)) with 36%N in Hl. lia.
Qed.

(** X16: [uid()] never returns the empty string, so an id it returns is
    truthy where the submit handler tests [editingId]; the part of the id
    that comes from [Date.now()] reads back as the time; and two ids made at
    different times differ, whatever [Math.random()] gave, when their time
    parts have the same number of digits, as they have for all times from
    36^7 ms (1972) up to 36^8 ms (2059), where that part has 8 digits. *)
Theorem uid_nonempty_and_time_stamped (now now' : N) (random36 random36' : string) :
  uid (Z.of_N now) random36 ≠ EmptyString
  ∧ editing (Some (uid (Z.of_N now) random36)) = true
  ∧ of36 (toString36 (Z.of_N now)) 0 = now
  ∧ (String.length (toString36 (Z.of_N now)) = String.length (toString36 (Z.of_N now')) →
     uid (Z.of_N now) random36 = uid (Z.of_N now') random36' → now = now')
  ∧ ((36 ^ 7 ≤ now < 36 ^ 8)%N → (36 ^ 7 ≤ now' < 36 ^ 8)%N →
     String.length (toString36 (Z.of_N now)) = 8
     ∧ (uid (Z.of_N now) random36 = uid (Z.of_N now') random36' → now = now')).
Proof.
  assert (uid (Z.of_N now) random36 ≠ EmptyString) as Hne.
  { unfold uid, toString36.
    assert ((Z.of_N now <? 0)%Z = false) as -> by (apply Z.ltb_ge; lia).
    pose proof (to36_nonempty (N.to_nat (N.log2 (Z.abs_N (Z.of_N now))))
                  (Z.abs_N (Z.of_N now))) as H.
    by destruct (to36 _ _ _). }
  assert (String.length (toString36 (Z.of_N now))
          = String.length (toString36 (Z.of_N now')) →
          uid (Z.of_N now) random36 = uid (Z.of_N now') random36' → now = now') as Hinj.
  { intros Hl Hu. unfold uid in Hu. apply append_same_length in Hu; [|done].
    by rewrite <- (of36_toString36 now), Hu, of36_toString36. }
  split_and!; [exact Hne| |apply of36_toString36|exact Hinj|].
  - simpl. by apply negb_true_iff, is_empty_false.
  - intros Hn Hn'. split; [by apply length_toString36|].
    apply Hinj. by rewrite !length_toString36.
Qed.

Lemma uid_nonempty_and_time_stamped_witness :
  (36 ^ 7 ≤ 1762041600000 < 36 ^ 8)%N ∧ (36 ^ 7 ≤ 1762041600001 < 36 ^ 8)%N
  ∧ uid 1762041600000 "0.4fzyo82mvyr" = "mhgy2o004fzyo8"
  ∧ uid 1762041600001 "0.4fzyo82mvyr" = "mhgy2o014fzyo8"
  ∧ String.length (toString36 1762041600000) = 8.
Proof.
  assert (36 ^ 7 ≤ 1762041600000 < 36 ^ 8)%N as H1 by (by vm_compute).
  assert (36 ^ 7 ≤ 1762041600001 < 36 ^ 8)%N as H2 by (by vm_compute).
  split; [exact H1|]. split; [exact H2|].
  split; [by vm_compute|]. split; [by vm_compute|].
  destruct (uid_nonempty_and_time_stamped 1762041600000 1762041600001
              EmptyString EmptyString) as (_ & _ & _ & _ & H).
  exact (proj1 (H H1 H2)).
Defined.

Example uid_example :
  uid 1762041600000 "0.4fzyo82mvyr" = "mhgy2o004fzyo8"
  ∧ uid 1762041600000 "0" = "mhgy2o00"
  ∧ toString36 0 = "0" ∧ toString36 (-71) = "-1z".
Proof. split_and!; by vm_compute. Qed.
End Uid.

(** ** What the form stores as a title *)
Section Trim.
Import JSON App.
Implicit Types (v a b : string) (s : State).

Lemma trimStart_spec v : ∃ a, v = a +:+ Str.trimStart v ∧ blank a.
Proof.
  induction v as [|x v (a & IH & Ha)]; [by exists EmptyString|]. simpl.
  destruct (Str.is_space x) eqn:Hx.
  - exists (String x a). rewrite append_cons, <- IH. done.
  - by exists EmptyString.
Qed.

Lemma trimEnd_spec v :
  ∃ b, v = Str.trimEnd v +:+ b ∧ blank b ∧ no_trail (Str.trimEnd v).
Proof.
  induction v as [|x v (b & IH & Hb & Ht)]; [by exists EmptyString|]. simpl.
  destruct (Str.is_space x) eqn:Hx; simpl.
  - destruct (Str.trimEnd v) as [|y w] eqn:Hw; simpl.
    + exists (String x b). rewrite append_nil in IH. subst b.
      rewrite append_nil. by split_and!.
    + exists b. rewrite append_cons, <- IH. done.
  - exists b. rewrite append_cons, <- IH. split_and!; [done..|].
    by destruct (Str.trimEnd v).
Qed.

(** X14: the title that an accepted add stores is the input without the
    white space around it: the input is that title between two runs of
    white space, and the title is not empty and neither begins nor ends
    with white space. *)
Theorem added_title_is_input_without_outer_space s input uid :
  editingId s = None → snd (onSubmit input uid s) = None →
  ∃ v a b,
    todos (fst (onSubmit input uid s))
    = {| id := uid; title := v; completed := false |} :: todos s
    ∧ input = a +:+ v +:+ b ∧ blank a ∧ blank b
    ∧ v ≠ EmptyString ∧ no_lead v ∧ no_trail v.
Proof.
  intros He Hok.
  destruct (trimStart_spec input) as (a & Ha & Hba).
  destruct (trimEnd_spec (Str.trimStart input)) as (b & Hb & Hbb & Ht).
  exists (Str.trim input), a, b. unfold onSubmit in *.
  destruct (Str.is_empty (Str.trim input)) eqn:Hv; [done|].
  destruct (some _ _); [done|]. rewrite He. simpl.
  split_and!; [done| |done..| | |done].
  - rewrite Ha at 1. by rewrite Hb at 1.
  - by apply is_empty_false.
  - apply trimEnd_no_lead, trimStart_no_lead.
Qed.

Lemma added_title_is_input_without_outer_space_witness :
  editingId (start None []) = None
  ∧ snd (onSubmit "  Buy  milk " "k" (start None [])) = None
  ∧ ∃ v a b, title <$> todos (fst (onSubmit "  Buy  milk " "k" (start None []))) = [v]
             ∧ "  Buy  milk " = a +:+ v +:+ b ∧ no_lead v ∧ no_trail v.
Proof.
  split; [reflexivity|]. split; [reflexivity|].
  destruct (added_title_is_input_without_outer_space (start None []) "  Buy  milk " "k"
              eq_refl eq_refl) as (v & a & b & H1 & H2 & _ & _ & _ & H3 & H4).
  exists v, a, b. by rewrite H1.
Defined.
End Trim.

(** ** Looking does not change the list *)
Section Looking.
Import JSON App.
Implicit Types (s : State) (e : Event) (es : list Event).

Lemma looks_only_handle e s :
  looks_only e = true →
  todos (handle e s) = todos s ∧ localStorage (handle e s) = localStorage s.
Proof.
  destruct e as [input uid|i x|i x|i|f|q|x|order|]; simpl; try done.
  - by intros ->%negb_true_iff.
  - intros _. unfold startEdit. by destruct (find _ _).
  - by intros ->%negb_true_iff.
Qed.

(** X15: filtering, searching, opening an entry for editing, and cancelling
    a delete or a clear, in any number and order, change neither [todos] nor
    what is stored; going back to the filter all with an empty query shows
    every entry again, in the order of [todos]. *)
Theorem looking_keeps_the_list es s :
  Forall (λ e, looks_only e = true) es →
  todos (run es s) = todos s
  ∧ localStorage (run es s) = localStorage s
  ∧ todoListEl (run (es ++ [FilterClick "all"; SearchInput EmptyString]) s) = todos s.
Proof.
  intros Hes.
  assert (todos (run es s) = todos s ∧ localStorage (run es s) = localStorage s) as [H1 H2].
  { revert s. induction Hes as [|e es He Hes IH]; intros s; [done|].
    unfold run in *. simpl. destruct (looks_only_handle e s He) as [Ht Hl].
    destruct (IH (handle e s)) as [IH1 IH2]. by rewrite IH1, IH2. }
  split_and!; [exact H1|exact H2|].
  unfold run in *. rewrite foldl_app. simpl. exact H1.
Qed.

Lemma looking_keeps_the_list_witness :
  let A := {| id := "a"; title := "Walk"; completed := true |} in
  let B := {| id := "b"; title := "Read"; completed := false |} in
  let es := [FilterClick "completed"; SearchInput "wa"; EditClick "a";
             Delete "a" false; ClearClick false] in
  Forall (λ e, looks_only e = true) es
  ∧ todoListEl (run es (start None [A; B])) = [A]
  ∧ todos (run es (start None [A; B])) = [A; B].
Proof.
  intros A B es.
  assert (Forall (λ e, looks_only e = true) es) as H by (repeat constructor).
  split_and!; [exact H|reflexivity|].
  exact (proj1 (looking_keeps_the_list es (start None [A; B]) H)).
Defined.
End Looking.
